(** * MUSIC_PRODUCER_SEARCH.py: a shallow embedding and its properties

    The script resolves a producer name to a Genius artist, pages through that
    artist's songs, fetches every song's detail record, keeps the songs that
    credit the artist as a producer and exports them as CSV.

    Modelling choices, each local to the definition that makes it:
    - JSON payloads are typed records holding exactly the fields the script
      reads; a field read with [dict.get] is an [option]. A body that does
      not have this shape (a KeyError or a decoding error in Python) is
      outside the model.
    - Every request is answered with a status code and a body; what
      [requests.get] raises when no answer arrives is outside the model.
      The answer is a function of the token and the request.
    - Python exceptions, and a loop that is still running when the fuel is
      spent, are outcomes of a computation.
    - The script only ever writes to the outside world (requests, sleeps,
      prints, file writes). A computation is therefore its outcome together
      with the trace of effects it performed, in order; the file system
      after a run is obtained by replaying the trace. Opening a file for
      writing always succeeds.
    - [str.lower] is a parameter: the proofs hold for every lowering
      function, Unicode-aware or not.
    - Strings are byte strings (UTF-8 for text outside ASCII); the substring
      test and the csv quoting rules read the same on bytes as on code
      points. *)

From Stdlib Require Import String Ascii.
From stdpp Require Import base numbers strings list gmap pretty.

Local Open Scope Z_scope.

(** ** Python strings *)

Module Str.

(** [sub in s] on two [str] values. *)
Fixpoint is_substring (sub s : string) : bool :=
  String.prefix sub s ||
  match s with
  | EmptyString => false
  | String _ s' => is_substring sub s'
  end.

(** [sep.join(parts)]. *)
Definition join (sep : string) (parts : list string) : string :=
  String.concat sep parts.

(** Truthiness of a [str]: only the empty string is falsy. *)
Definition truthy (s : string) : bool :=
  match s with EmptyString => false | String _ _ => true end.

(** [x or d] where [x] is a [str] or [None]. *)
Definition or_else (x : option string) (d : string) : string :=
  match x with
  | Some s => if truthy s then s else d
  | None => d
  end.

Definition LF : ascii := "010"%char.
Definition CR : ascii := "013"%char.
Definition DQUOTE : ascii := "034"%char.
Definition COMMA : ascii := ","%char.

(** The characters of a string, and a test over them. *)
Fixpoint existsb (p : ascii → bool) (s : string) : bool :=
  match s with
  | EmptyString => false
  | String c s' => p c || existsb p s'
  end.

(** Number of line feeds (the count [wc -l] reports for file contents). *)
Fixpoint line_count (s : string) : nat :=
  match s with
  | EmptyString => O
  | String c s' =>
      ((if Ascii.eqb c LF then 1 else 0) + line_count s')%nat
  end.

Definition has_line_break (s : string) : bool :=
  existsb (λ c, Ascii.eqb c LF || Ascii.eqb c CR) s.

End Str.

(** ** Exceptions, outcomes and effect traces *)

Inductive Exn :=
  | HTTPError (status : Z)     (* requests.HTTPError, from raise_for_status *)
  | ValueError (msg : string)
  | SystemExit (code : Z).     (* argparse's parser.error *)

Inductive Outcome (A : Type) :=
  | Returned (a : A)
  | Raised (e : Exn)
  | OutOfFuel.                 (* the loop has not finished yet *)
Arguments Returned {A} a.
Arguments Raised {A} e.
Arguments OutOfFuel {A}.

(** ** The Genius API, as far as the script reads it *)

(** An artist object: the script reads ["id"] and ["name"]. *)
Record Artist := { artist_id : Z; artist_name : string }.

(** A search hit: [hit["result"]["primary_artist"]]. *)
Record Hit := { hit_primary_artist : Artist }.

(** An item of the artist's song listing: [s["id"]]. *)
Record SongStub := { stub_id : Z }.

(** The ["song"] object of the detail endpoint. ["release_date"] and
    ["producer_artists"] are read with [dict.get]: [None] is a missing key
    (for ["release_date"], also a JSON null). *)
Record SongDetail := {
  title : string;
  primary_artist : Artist;
  url : string;
  release_date : option string;
  producer_artists : option (list Artist)
}.

(** One call of [request_genius]: its path and query parameters. *)
Inductive Request :=
  | Search (q : string)                          (* /search, q *)
  | ArtistSongs (artist per_page page : Z)       (* /artists/{id}/songs *)
  | Song (song : Z).                             (* /songs/{id} *)

(** What the JSON answer holds under ["response"], by endpoint:
    ["hits"], ["songs"], ["song"]. *)
Definition Body (r : Request) : Type :=
  match r with
  | Search _ => list Hit
  | ArtistSongs _ _ _ => list SongStub
  | Song _ => SongDetail
  end.

(** A [requests.Response]: the status code and the decoded body (which the
    script never reads when the status is an error). *)
Record Response (A : Type) := { status_code : Z; json : A }.
Arguments status_code {A} _.
Arguments json {A} _.

Inductive Event :=
  | Get (token : string) (r : Request)   (* requests.get, Bearer token *)
  | Sleep (ms : Z)                       (* time.sleep, in milliseconds *)
  | Print (line : string)                (* print to standard output *)
  | Open (path : string)                 (* open(path, "w"): create or truncate *)
  | Write (path data : string).          (* f.write(data) through the csv writer *)

Record Py (A : Type) := Run { outcome : Outcome A; trace : list Event }.
Arguments Run {A} outcome trace.
Arguments outcome {A} _.
Arguments trace {A} _.

Global Instance Py_ret : MRet Py := λ A a, Run (Returned a) [].
Global Instance Py_bind : MBind Py := λ A B k m,
  match outcome m with
  | Returned a => Run (outcome (k a)) (trace m ++ trace (k a))
  | Raised e => Run (Raised e) (trace m)
  | OutOfFuel => Run OutOfFuel (trace m)
  end.

Definition raise {A} (e : Exn) : Py A := Run (Raised e) [].
Definition out_of_fuel {A} : Py A := Run OutOfFuel [].
Definition emit (e : Event) : Py unit := Run (Returned tt) [e].
Definition print (line : string) : Py unit := emit (Print line).
Definition sleep (ms : Z) : Py unit := emit (Sleep ms).

(** The file system after a trace: [Open] creates or truncates, [Write]
    appends to the file opened before. Opening always succeeds here. *)
Definition fs_step (fs : gmap string string) (e : Event) : gmap string string :=
  match e with
  | Open p => <[p := EmptyString]> fs
  | Write p d => alter (λ c, c +:+ d) p fs
  | _ => fs
  end.
Definition fs_after (t : list Event) (fs : gmap string string)
  : gmap string string := foldl fs_step fs t.

Definition touches_file (e : Event) : bool :=
  match e with Open _ | Write _ _ => true | _ => false end.


(** ** Python values and dicts *)

(** The values the script stores in a row dict. *)
Inductive PyVal :=
  | PyInt (n : Z)
  | PyStr (s : string).

(** [str(v)], which is also how the csv writer renders a field. *)
Definition str (v : PyVal) : string :=
  match v with
  | PyInt n => pretty n
  | PyStr s => s
  end.

(** A dict with string keys, in insertion order. *)
Abbreviation Dict := (list (string * PyVal)).

Definition keys (d : Dict) : list string := d.*1.

(** [d.get(key, default)]. *)
Fixpoint dict_get (key : string) (d : Dict) (default : PyVal) : PyVal :=
  match d with
  | [] => default
  | (k, v) :: rest => if decide (k = key) then v else dict_get key rest default
  end.

(** ** The csv module: [csv.DictWriter] with the default (excel) dialect *)

Module Csv.

Definition CRLF : string := String Str.CR (String Str.LF EmptyString).

(** Characters that make the writer quote a field (QUOTE_MINIMAL): the
    delimiter, the quote character and the characters of the line
    terminator. *)
Definition special (c : ascii) : bool :=
  Ascii.eqb c Str.COMMA || Ascii.eqb c Str.DQUOTE
  || Ascii.eqb c Str.CR || Ascii.eqb c Str.LF.

(** doublequote=True: a quote inside a quoted field is written twice. *)
Fixpoint double_quotes (s : string) : string :=
  match s with
  | EmptyString => EmptyString
  | String c s' =>
      if Ascii.eqb c Str.DQUOTE
      then String Str.DQUOTE (String Str.DQUOTE (double_quotes s'))
      else String c (double_quotes s')
  end.

Definition quoted (s : string) : string :=
  String Str.DQUOTE (double_quotes s +:+ String Str.DQUOTE EmptyString).

Definition field (s : string) : string :=
  if Str.existsb special s then quoted s else s.

(** One record as the writer emits it. A record that is a single empty
    field is written as an empty quoted field. *)
Definition line (fields : list string) : string :=
  match fields with
  | [EmptyString] => quoted EmptyString
  | _ => Str.join "," (field <$> fields)
  end +:+ CRLF.

(** [writer.writerow(fields)] on the file opened at [path]. *)
Definition writerow (path : string) (fields : list string) : Py unit :=
  emit (Write path (line fields)).

(** [DictWriter._dict_to_list] with extrasaction="raise" and restval="".
    The error message names the offending keys; CPython lists them in set
    order and through [repr], here they come in the row's key order. *)
Definition dict_to_list (fieldnames : list string) (rowdict : Dict)
  : Py (list string) :=
  match filter (λ k, k ∉ fieldnames) (keys rowdict) with
  | [] =>
      mret ((λ key, str (dict_get key rowdict (PyStr EmptyString)))
              <$> fieldnames)
  | wrong_fields =>
      raise (ValueError ("dict contains fields not in fieldnames: "
                         +:+ Str.join ", " wrong_fields))
  end.

(** [DictWriter.writeheader]: the row maps every field name to itself. *)
Definition writeheader (path : string) (fieldnames : list string) : Py unit :=
  writerow path fieldnames.

(** [DictWriter.writerows]: rows are converted and written one by one. *)
Fixpoint writerows (path : string) (fieldnames : list string)
    (rowdicts : list Dict) : Py unit :=
  match rowdicts with
  | [] => mret tt
  | rowdict :: rest =>
      row ← dict_to_list fieldnames rowdict;
      writerow path row;;
      writerows path fieldnames rest
  end.

End Csv.

(** The reading side of the dialect, for one field: the rules by which a
    reader of the format takes a field off the front of a line. It is not
    called by the script; the properties use it to show that the writer's
    quoting loses nothing. *)
Module CsvRead.

(** An unquoted field runs up to the next delimiter, quote or line break. *)
Fixpoint unquoted (s : string) : string * string :=
  match s with
  | EmptyString => (EmptyString, EmptyString)
  | String c rest =>
      if Csv.special c then (EmptyString, s)
      else let '(value, tail) := unquoted rest in (String c value, tail)
  end.

(** After the opening quote: a doubled quote is one quote of the value, a
    single quote closes the field. *)
Fixpoint quoted (s : string) : option (string * string) :=
  match s with
  | EmptyString => None
  | String c rest =>
      if Ascii.eqb c Str.DQUOTE then
        match rest with
        | String c' rest' =>
            if Ascii.eqb c' Str.DQUOTE
            then '(value, tail) ← quoted rest';
                 Some (String Str.DQUOTE value, tail)
            else Some (EmptyString, rest)
        | EmptyString => Some (EmptyString, EmptyString)
        end
      else '(value, tail) ← quoted rest; Some (String c value, tail)
  end.

(** The first field of [s] and what follows it. *)
Definition field (s : string) : option (string * string) :=
  match s with
  | String c rest =>
      if Ascii.eqb c Str.DQUOTE then quoted rest else Some (unquoted s)
  | EmptyString => Some (EmptyString, EmptyString)
  end.

End CsvRead.

(** ** The script *)

Section Script.

(** [str.lower]. *)
Variable lower : string → string.

(** The remote API: the response to a GET with the given bearer token. *)
Variable genius : string → ∀ r : Request, Response (Body r).

(** [requests.get(f"{API_BASE}{path}", headers=..., params=...)]. *)
Definition requests_get (token : string) (r : Request)
  : Py (Response (Body r)) :=
  Run (Returned (genius token r)) [Get token r].

(** [Response.raise_for_status]: 4xx and 5xx statuses raise. *)
Definition is_error_status (status : Z) : bool :=
  bool_decide (400 ≤ status < 600).

Definition raise_for_status {A} (resp : Response A) : Py unit :=
  if is_error_status (status_code resp)
  then raise (HTTPError (status_code resp))
  else mret tt.

Definition request_genius (r : Request) (token : string) : Py (Body r) :=
  resp ← requests_get token r;
  raise_for_status resp;;
  mret (json resp).

(** The [for hit in ...] loop of [find_producer_id], with the [raise]
    that follows it. *)
Fixpoint find_producer_id_loop (name : string) (hits : list Hit)
  : Py (Z * string) :=
  match hits with
  | [] =>
      raise (ValueError ("No producer artist found for '" +:+ name +:+ "'"))
  | hit :: rest =>
      let artist := hit_primary_artist hit in
      if Str.is_substring (lower name) (lower (artist_name artist))
      then mret (artist_id artist, artist_name artist)
      else find_producer_id_loop name rest
  end.

Definition find_producer_id (name token : string) : Py (Z * string) :=
  hits ← request_genius (Search name) token;
  find_producer_id_loop name hits.

(** The [while True] loop of [fetch_all_songs_for_artist]; [fuel] bounds
    the number of iterations. *)
Fixpoint fetch_all_songs_loop (fuel : nat) (artist : Z) (token : string)
    (page : Z) (all_songs : list SongStub) : Py (list SongStub) :=
  match fuel with
  | O => out_of_fuel
  | S fuel' =>
      songs ← request_genius (ArtistSongs artist 50 page) token;
      match songs with
      | [] => mret all_songs
      | _ :: _ =>
          sleep 500;;
          fetch_all_songs_loop fuel' artist token (page + 1)
            (all_songs ++ songs)
      end
  end.

Definition fetch_all_songs_for_artist (fuel : nat) (artist : Z)
    (token : string) : Py (list SongStub) :=
  fetch_all_songs_loop fuel artist token 1 [].

(** [detail.get("producer_artists", [])]. *)
Definition credits (detail : SongDetail) : list Artist :=
  default [] (producer_artists detail).

(** The dict appended to [filtered]. *)
Definition output_record (sid : Z) (detail : SongDetail)
    (producers : list string) : Dict :=
  [ ("song_id", PyInt sid);
    ("title", PyStr (title detail));
    ("primary_artist", PyStr (artist_name (primary_artist detail)));
    ("producers", PyStr (Str.join "; " producers));
    ("release_date", PyStr (Str.or_else (release_date detail) EmptyString));
    ("url", PyStr (url detail)) ].

(** The [for s in song_list] loop of [filter_songs_by_producer]. *)
Fixpoint filter_songs_loop (song_list : list SongStub) (producer_id : Z)
    (token : string) (filtered : list Dict) : Py (list Dict) :=
  match song_list with
  | [] => mret filtered
  | s :: rest =>
      let sid := stub_id s in
      detail ← request_genius (Song sid) token;
      let producers := artist_name <$> credits detail in
      let producer_ids := artist_id <$> credits detail in
      let filtered' :=
        if bool_decide (producer_id ∈ producer_ids)
        then filtered ++ [output_record sid detail producers]
        else filtered in
      sleep 200;;
      filter_songs_loop rest producer_id token filtered'
  end.

Definition filter_songs_by_producer (song_list : list SongStub)
    (producer_id : Z) (token : string) : Py (list Dict) :=
  filter_songs_loop song_list producer_id token [].

Definition save_to_csv (records : list Dict) (path : string) : Py unit :=
  match records with
  | [] => print "No records to write."
  | first :: _ =>
      emit (Open path);;
      let fieldnames := keys first in
      Csv.writeheader path fieldnames;;
      Csv.writerows path fieldnames records
  end.

(** The parsed command line: [token] is the --token flag or else the
    GENIUS_ACCESS_TOKEN environment variable; [output] is the --output
    flag or else its default. *)
Record Args := { producer : string; token : option string; output : string }.

Definition main (fuel : nat) (args : Args) : Py unit :=
  match token args with
  | None | Some EmptyString => raise (SystemExit 2)
  | Some tok =>
      print ("Looking up producer '" +:+ producer args +:+ "'…");;
      '(pid, pname) ← find_producer_id (producer args) tok;
      print ("Found producer ID " +:+ pretty pid +:+ " (" +:+ pname
             +:+ "). Fetching song list…");;
      all_songs ← fetch_all_songs_for_artist fuel pid tok;
      print ("Got " +:+ pretty (length all_songs)
             +:+ " total songs associated with artist ID " +:+ pretty pid
             +:+ ".");;
      print "Filtering songs where this artist is credited as producer…";;
      produced ← filter_songs_by_producer all_songs pid tok;
      print (pretty (length produced) +:+ " songs found where '" +:+ pname
             +:+ "' is a producer.");;
      print ("Writing to '" +:+ output args +:+ "'…");;
      save_to_csv produced (output args);;
      print "Done."
  end.

End Script.

(** ** The command line

    What [argparse] hands to the body of [main]: the positional producer
    name and, for each option, the value given on the command line if the
    option was given at all. A command line that [argparse] itself rejects
    (no producer name, an unknown option) has no such record. *)
Record CommandLine := {
  arg_producer : string;
  flag_token : option string;      (* --token *)
  flag_output : option string      (* --output *)
}.

(** [p.parse_args()]: an option that was not given takes its default, which
    for --token is [os.getenv("GENIUS_ACCESS_TOKEN")] (here [env_token]) and
    for --output is the fixed file name. *)
Definition parse_args (env_token : option string) (cl : CommandLine) : Args :=
  {| producer := arg_producer cl;
     token := match flag_token cl with
              | Some given => Some given
              | None => env_token
              end;
     output := default "songs_by_producer.csv" (flag_output cl) |}.

(** [main()] from the command line and the environment. *)
Definition main_from_command_line (lower : string → string)
    (genius : string → ∀ r : Request, Response (Body r)) (fuel : nat)
    (env_token : option string) (cl : CommandLine) : Py unit :=
  main lower genius fuel (parse_args env_token cl).

(** ** A test double: the scenario of the specification

    Producer "Metro Boomin" is artist 42; the catalogue has three songs on
    two pages (two items, one item, then an empty page); artist 42 is
    credited on songs 1 and 3. Requests with a wrong token get a 401. *)

Module Scenario.

(** [str.lower] on ASCII text. *)
Definition lower_char (c : ascii) : ascii :=
  let n := nat_of_ascii c in
  if ((65 <=? n) && (n <=? 90))%nat then ascii_of_nat (n + 32) else c.

Fixpoint lower (s : string) : string :=
  match s with
  | EmptyString => EmptyString
  | String c s' => String (lower_char c) (lower s')
  end.

Definition metro : Artist := {| artist_id := 42; artist_name := "Metro Boomin" |}.
Definition future : Artist := {| artist_id := 7; artist_name := "Future" |}.

Definition ok {A} (a : A) : Response A := {| status_code := 200; json := a |}.
Definition failed {A} (status : Z) (a : A) : Response A :=
  {| status_code := status; json := a |}.

Definition song (t : string) (date : option string)
    (ps : option (list Artist)) : SongDetail :=
  {| title := t; primary_artist := future;
     url := "https://genius.com/" +:+ t;
     release_date := date; producer_artists := ps |}.

Definition song1 : SongDetail := song "Mask Off" (Some "2017-02-17") (Some [metro]).
Definition song2 : SongDetail := song "Codeine Crazy" None None.
Definition song3 : SongDetail := song "Where Ya At" (Some EmptyString) (Some [future; metro]).

Definition hits : list Hit :=
  [ {| hit_primary_artist := future |}; {| hit_primary_artist := metro |} ].

Definition page (n : Z) : list SongStub :=
  if n =? 1 then [ {| stub_id := 1 |}; {| stub_id := 2 |} ]
  else if n =? 2 then [ {| stub_id := 3 |} ]
  else [].

Definition api (token : string) (r : Request) : Response (Body r) :=
  match r return Response (Body r) with
  | Search q =>
      if decide (token = "secret") then ok hits else failed 401 []
  | ArtistSongs a _ n =>
      if decide (token = "secret") then ok (page n) else failed 401 []
  | Song sid =>
      if decide (token = "secret")
      then ok (if sid =? 1 then song1 else if sid =? 3 then song3 else song2)
      else failed 401 song2
  end.

(** The same service, except that the detail of song 2 is unavailable. *)
Definition flaky_api (token : string) (r : Request) : Response (Body r) :=
  match r return Response (Body r) with
  | Song 2 => failed 503 song2
  | r => api token r
  end.

(** The same service, except that the second page of songs is unavailable. *)
Definition late_failure_api (token : string) (r : Request)
  : Response (Body r) :=
  match r return Response (Body r) with
  | ArtistSongs _ _ 2 => failed 500 []
  | r => api token r
  end.

Definition args : Args :=
  {| producer := "metro"; token := Some "secret"; output := "out.csv" |}.

(** A service that ignores the page number: every page of songs is the
    same non-empty page. *)
Definition endless_api (token : string) (r : Request) : Response (Body r) :=
  match r return Response (Body r) with
  | ArtistSongs _ _ _ => ok (page 1)
  | r => api token r
  end.

Definition command_line : CommandLine :=
  {| arg_producer := "metro"; flag_token := Some "secret";
     flag_output := None |}.

(** Rows for the exporter that do not share their keys: the second lacks
    the title, the third has a key the first does not have. *)
Definition short_row : Dict := [("song_id", PyInt 2)].
Definition long_row : Dict :=
  [("song_id", PyInt 3); ("title", PyStr "Where Ya At"); ("year", PyInt 2015)].
Definition first_row : Dict := [("song_id", PyInt 1); ("title", PyStr "Mask Off")].

(** A song whose title runs over two lines. *)
Definition two_line_song : SongDetail :=
  {| title := "Intro" +:+ Csv.CRLF +:+ "(Skit)";
     primary_artist := future;
     url := "https://genius.com/intro-skit";
     release_date := None;
     producer_artists := Some [metro] |}.

End Scenario.

(** ** Vocabulary of the statements *)

Definition stub (n : Z) : SongStub := {| stub_id := n |}.

Ltac forall_by_computation :=
  repeat first [apply Forall_nil_2 | apply Forall_cons_2 | reflexivity].

(** The effects of reading [count] non-empty pages from page [first] on:
    a request and a pause per page. *)
Definition page_reads (tok : string) (artist first : Z) (count : nat)
  : list Event :=
  seqZ first (Z.of_nat count)
    ≫= λ n, [Get tok (ArtistSongs artist 50 n); Sleep 500].

(** The effects of fetching the details of the given stubs: a request and
    a pause per stub. *)
Definition detail_reads (tok : string) (song_list : list SongStub)
  : list Event :=
  song_list ≫= λ s, [Get tok (Song (stub_id s)); Sleep 200].

(** The field names of the records the filter builds, in insertion order. *)
Definition output_fields : list string :=
  ["song_id"; "title"; "primary_artist"; "producers"; "release_date"; "url"].

(** The record the filter builds for a song identifier and its detail. *)
Definition projected (song : Z * SongDetail) : Dict :=
  output_record song.1 song.2 (artist_name <$> credits song.2).

(** The field values of that record as text, in field order. *)
Definition output_values (song : Z * SongDetail) : list string :=
  [ pretty song.1;
    title song.2;
    artist_name (primary_artist song.2);
    Str.join "; " (artist_name <$> credits song.2);
    Str.or_else (release_date song.2) EmptyString;
    url song.2 ].

(** The line feeds inside the field values of a song's record. *)
Definition embedded_line_feeds (song : Z * SongDetail) : nat :=
  sum_list (Str.line_count <$> output_values song).

(** The text of a row dict under the field names, a missing key giving
    the empty text. *)
Definition row_values (fieldnames : list string) (rowdict : Dict)
  : list string :=
  (λ key, str (dict_get key rowdict (PyStr EmptyString))) <$> fieldnames.

(** The text of a file made of the given pieces, written one after another. *)
Definition written (pieces : list string) : string :=
  foldr String.append EmptyString pieces.

(** What a run may do with a token and an output path: send requests that
    carry that token, and open or write the file at that path. *)
Definition event_allowed (tok : option string) (path : string) (e : Event)
  : Prop :=
  match e with
  | Get t _ => tok = Some t
  | Open p | Write p _ => p = path
  | Sleep _ | Print _ => True
  end.

Definition is_request (e : Event) : bool :=
  match e with Get _ _ => true | _ => false end.

(** The number of GET requests of a trace. *)
Definition request_count (t : list Event) : nat :=
  length (filter is_request t).

(** The time spent in [time.sleep] over a trace, in milliseconds. *)
Definition slept (t : list Event) : Z :=
  foldr (λ e total, match e with Sleep ms => ms + total | _ => total end) 0 t.

(** * Properties *)

(** ** Strings *)

Lemma prefix_spec (sub s : string) :
  String.prefix sub s = true ↔ ∃ post, s = sub +:+ post.
Proof.
  revert sub. induction s as [|c' s IH]; intros [|c sub]; simpl.
  - split; [intros _; by exists EmptyString|done].
  - split; [done|]. by intros [post ?].
  - split; [intros _; by exists (String c' s)|done].
  - destruct (ascii_dec c c') as [->|Hne].
    + rewrite IH. split; intros [post Hpost]; exists post.
      * unfold String.app; simpl. by rewrite Hpost.
      * by injection Hpost.
    + split; [done|]. intros [post Hpost]. injection Hpost as ??. done.
Qed.

Lemma is_substring_unfold (sub s : string) :
  Str.is_substring sub s
  = String.prefix sub s ||
    match s with
    | EmptyString => false
    | String _ s' => Str.is_substring sub s'
    end.
Proof. by destruct s. Qed.

(** [Str.is_substring] decides the substring relation. *)
Lemma is_substring_spec (sub s : string) :
  Str.is_substring sub s = true ↔ ∃ pre post, s = pre +:+ sub +:+ post.
Proof.
  induction s as [|c s IH];
    rewrite is_substring_unfold, orb_true_iff, prefix_spec.
  - split.
    + intros [[post Hpost]|?]; [|done]. by exists EmptyString, post.
    + intros ([|c pre] & post & Hpost); [left; by exists post|done].
  - rewrite IH. split.
    + intros [[post Hpost]|(pre & post & Hpost)].
      * by exists EmptyString, post.
      * exists (String c pre), post. unfold String.app; simpl.
        by rewrite Hpost.
    + intros ([|c' pre] & post & Hpost).
      * left. by exists post.
      * right. injection Hpost as _ Hpost. by exists pre, post.
Qed.

Lemma is_substring_empty (s : string) : Str.is_substring EmptyString s = true.
Proof. by destruct s. Qed.

(** ** Computations *)

Lemma bind_returned {A B} (a : A) (t : list Event) (k : A → Py B) :
  Run (Returned a) t ≫= k = Run (outcome (k a)) (t ++ trace (k a)).
Proof. done. Qed.

Lemma bind_raised {A B} (e : Exn) (t : list Event) (k : A → Py B) :
  Run (Raised e) t ≫= k = Run (Raised e) t.
Proof. done. Qed.

Lemma bind_when_returned {A B} (m : Py A) (k : A → Py B) (a : A) :
  outcome m = Returned a →
  m ≫= k = Run (outcome (k a)) (trace m ++ trace (k a)).
Proof. destruct m as [o t]; simpl. by intros ->. Qed.


Lemma bind_assoc {A B C} (m : Py A) (k : A → Py B) (h : B → Py C) :
  (m ≫= k) ≫= h = m ≫= (λ a, k a ≫= h).
Proof.
  destruct m as [[a|e|] t]; try done.
  unfold mbind, Py_bind; simpl.
  destruct (outcome (k a)); simpl; by rewrite ?app_assoc.
Qed.

Lemma outcome_bind {A B} (m : Py A) (k : A → Py B) :
  outcome (m ≫= k)
  = match outcome m with
    | Returned a => outcome (k a)
    | Raised e => Raised e
    | OutOfFuel => OutOfFuel
    end.
Proof. by destruct m as [[a|e|] t]. Qed.

Lemma trace_bind {A B} (m : Py A) (k : A → Py B) :
  trace (m ≫= k)
  = trace m ++ match outcome m with
               | Returned a => trace (k a)
               | _ => []
               end.
Proof. destruct m as [[a|e|] t]; simpl; by rewrite ?app_nil_r. Qed.

Lemma run_eta {A} (m : Py A) : Run (outcome m) (trace m) = m.
Proof. by destruct m. Qed.

(** A trace without file events leaves every file as it was. *)
Lemma fs_after_untouched (t : list Event) (fs : gmap string string) :
  filter touches_file t = [] → fs_after t fs = fs.
Proof.
  unfold fs_after. revert fs.
  induction t as [|e t IH]; intros fs; [done|].
  rewrite filter_cons. destruct e; simpl; try done; apply IH.
Qed.

(** ** The Exporter *)

Lemma line_count_app (a b : string) :
  Str.line_count (a +:+ b) = (Str.line_count a + Str.line_count b)%nat.
Proof.
  induction a as [|c a IH]; [done|].
  unfold String.app in *; simpl. rewrite IH. lia.
Qed.

Lemma line_count_double_quotes (s : string) :
  Str.line_count (Csv.double_quotes s) = Str.line_count s.
Proof.
  induction s as [|c s IH]; [done|]. simpl.
  destruct (Ascii.eqb c Str.DQUOTE) eqn:E; simpl; rewrite IH; [|done].
  apply Ascii.eqb_eq in E as ->. done.
Qed.

Lemma line_count_field (s : string) :
  Str.line_count (Csv.field s) = Str.line_count s.
Proof.
  unfold Csv.field, Csv.quoted. destruct (Str.existsb Csv.special s); [|done].
  simpl. rewrite line_count_app, line_count_double_quotes. simpl. lia.
Qed.

Lemma line_count_join_comma (fields : list string) :
  Str.line_count (Str.join "," fields)
  = sum_list (Str.line_count <$> fields).
Proof.
  unfold Str.join.
  induction fields as [|f [|g fields] IH]; [done|simpl; lia|].
  change (String.concat "," (f :: g :: fields))
    with (f +:+ "," +:+ String.concat "," (g :: fields)).
  rewrite !line_count_app, IH. simpl. lia.
Qed.

(** A written record ends in one line feed; any other line feed in it
    comes from inside a field value. *)
Lemma line_count_line (fields : list string) :
  Str.line_count (Csv.line fields)
  = S (sum_list (Str.line_count <$> fields)).
Proof.
  assert (Str.line_count
            (Str.join "," (Csv.field <$> fields) +:+ Csv.CRLF)
          = S (sum_list (Str.line_count <$> fields))) as Hjoin.
  { rewrite line_count_app, line_count_join_comma.
    replace (Str.line_count <$> (Csv.field <$> fields))
      with (Str.line_count <$> fields); [simpl; lia|].
    induction fields as [|f fields IH]; [done|].
    rewrite !fmap_cons. by rewrite line_count_field, IH. }
  unfold Csv.line. destruct fields as [|[|c f] [|g fields]]; try done.
Qed.

Lemma line_count_written (pieces : list string) :
  Str.line_count (written pieces) = sum_list (Str.line_count <$> pieces).
Proof.
  induction pieces as [|x pieces IH]; [done|].
  simpl. by rewrite line_count_app, IH.
Qed.

Lemma line_count_no_break (s : string) :
  Str.has_line_break s = false → Str.line_count s = O.
Proof.
  unfold Str.has_line_break.
  induction s as [|c s IH]; [done|]. simpl.
  intros [[H1 _]%orb_false_elim H2]%orb_false_elim.
  rewrite H1. by rewrite IH.
Qed.

(** The file system after writing pieces to a file just opened. *)
Lemma fs_after_writes (path : string) (pieces : list string)
    (fs : gmap string string) (sofar : string) :
  fs_after (Write path <$> pieces) (<[path := sofar]> fs)
  = <[path := sofar +:+ written pieces]> fs.
Proof.
  unfold fs_after. revert sofar.
  induction pieces as [|x pieces IH]; intros sofar; simpl.
  - f_equal. clear. induction sofar as [|c s IH]; [done|].
    unfold String.app in *; simpl. by rewrite <-IH.
  - rewrite alter_insert_eq, IH. f_equal.
    clear. induction sofar as [|c s IH]; [done|].
    unfold String.app in *; simpl. by rewrite IH.
Qed.

Lemma filter_none {A} (P : A → Prop) `{!∀ x, Decision (P x)} (l : list A) :
  Forall (λ x, ¬ P x) l → filter P l = [].
Proof.
  induction 1 as [|x l Hx _ IH]; [done|].
  by rewrite filter_cons, decide_False.
Qed.

Lemma dict_to_list_no_extras (fieldnames : list string) (rowdict : Dict) :
  keys rowdict ⊆ fieldnames →
  Csv.dict_to_list fieldnames rowdict
  = Run (Returned (row_values fieldnames rowdict)) [].
Proof.
  intros Hsub. unfold Csv.dict_to_list.
  rewrite filter_none; [done|].
  apply Forall_forall. intros k Hk Hnot. by apply Hnot, Hsub.
Qed.

Lemma writerows_no_extras (path : string) (fieldnames : list string)
    (rowdicts : list Dict) :
  Forall (λ rowdict, keys rowdict ⊆ fieldnames) rowdicts →
  Csv.writerows path fieldnames rowdicts
  = Run (Returned tt)
        ((λ rowdict, Write path (Csv.line (row_values fieldnames rowdict)))
           <$> rowdicts).
Proof.
  induction 1 as [|rowdict rowdicts Hrow _ IH]; [done|].
  cbn [Csv.writerows]. rewrite dict_to_list_no_extras by done.
  unfold Csv.writerow, emit. rewrite !bind_returned, IH. done.
Qed.

(** Records that share the first record's keys are exported as one header
    record, made of those keys in the first record's order, followed by one
    record per dict in input order. *)
Lemma save_to_csv_uniform (first : Dict) (rest : list Dict) (path : string) :
  Forall (λ rowdict, keys rowdict ⊆ keys first) (first :: rest) →
  save_to_csv (first :: rest) path
  = Run (Returned tt)
        (Open path :: Write path (Csv.line (keys first))
         :: ((λ rowdict, Write path (Csv.line (row_values (keys first) rowdict)))
               <$> first :: rest)).
Proof.
  intros Hkeys. unfold save_to_csv, Csv.writeheader, Csv.writerow, emit.
  by rewrite !bind_returned, writerows_no_extras.
Qed.

Lemma keys_projected (song : Z * SongDetail) :
  keys (projected song) = output_fields.
Proof. done. Qed.

Lemma row_values_projected (song : Z * SongDetail) :
  row_values output_fields (projected song) = output_values song.
Proof. done. Qed.

Lemma save_to_csv_projected (song : Z * SongDetail)
    (rest : list (Z * SongDetail)) (path : string) :
  save_to_csv (projected <$> song :: rest) path
  = Run (Returned tt)
        (Open path
         :: (Write path
               <$> Csv.line output_fields
                   :: (Csv.line ∘ output_values <$> song :: rest))).
Proof.
  rewrite fmap_cons, save_to_csv_uniform.
  - rewrite keys_projected, <-fmap_cons.
    rewrite (fmap_cons (Write path) (Csv.line output_fields)).
    do 3 f_equal.
    rewrite <-!list_fmap_compose. apply list_fmap_ext.
    intros i x _. unfold compose. by rewrite row_values_projected.
  - rewrite <-fmap_cons. apply Forall_fmap, Forall_forall.
    intros x _. unfold compose. by rewrite !keys_projected.
Qed.

Lemma sum_list_cons (x : nat) (l : list nat) :
  sum_list (x :: l) = (x + sum_list l)%nat.
Proof. done. Qed.

Lemma line_count_rows (songs : list (Z * SongDetail)) :
  sum_list (Str.line_count <$> (Csv.line ∘ output_values <$> songs))
  = (length songs + sum_list (embedded_line_feeds <$> songs))%nat.
Proof.
  induction songs as [|song songs IH]; [done|].
  rewrite !fmap_cons, !sum_list_cons, IH. cbn [length].
  unfold compose at 1. rewrite line_count_line.
  unfold embedded_line_feeds at 2. lia.
Qed.

Lemma embedded_line_feeds_none (song : Z * SongDetail) :
  Forall (λ v, Str.has_line_break v = false) (output_values song) →
  embedded_line_feeds song = O.
Proof.
  unfold embedded_line_feeds.
  induction 1 as [|v vs Hv _ IH]; [done|].
  by rewrite fmap_cons, sum_list_cons, line_count_no_break, IH.
Qed.

(** C4, as amended. For a non-empty list of records built by the filter's
    projection, [save_to_csv] opens the file once and writes one header
    record and then one record per input record, in input order, so the
    file is [S (length records)] records, each ending in CR LF. The header
    lists the keys of the first record in that record's order. The record
    of a song is its six values through the csv writer, the fourth being
    the credited producer names joined by "; " in their order. The number
    of physical lines of the file is the number of records plus the line
    feeds embedded in field values; it is the record count plus one when no
    value contains a line break. *)
Theorem save_to_csv_header_and_rows (songs : list (Z * SongDetail))
    (path : string) :
  songs ≠ [] →
  let records := projected <$> songs in
  let header := Csv.line output_fields in
  let rows := Csv.line ∘ output_values <$> songs in
  save_to_csv records path
  = Run (Returned tt) (Open path :: (Write path <$> header :: rows))
  ∧ (∀ first, head records = Some first → header = Csv.line (keys first))
  ∧ (∀ fs, fs_after (trace (save_to_csv records path)) fs
           = <[path := written (header :: rows)]> fs)
  ∧ length (header :: rows) = S (length records)
  ∧ Str.line_count (written (header :: rows))
    = (S (length records) + sum_list (embedded_line_feeds <$> songs))%nat
  ∧ (Forall (λ song, Forall (λ v, Str.has_line_break v = false)
                       (output_values song)) songs →
     Str.line_count (written (header :: rows)) = S (length records)).
Proof.
  intros Hne records header rows.
  destruct songs as [|song rest]; [done|].
  assert (Str.line_count (written (header :: rows))
          = (S (length records)
             + sum_list (embedded_line_feeds <$> song :: rest))%nat)
    as Hcount.
  { rewrite line_count_written, fmap_cons, sum_list_cons.
    unfold header, rows, records.
    rewrite line_count_line, line_count_rows, !length_fmap.
    cbn [length]. change (sum_list (Str.line_count <$> output_fields)) with O.
    lia. }
  split_and!.
  - apply save_to_csv_projected.
  - intros first [= <-]. by rewrite keys_projected.
  - intros fs. unfold records. rewrite save_to_csv_projected.
    cbn [trace fs_after foldl fs_step].
    apply (fs_after_writes path (header :: rows) fs EmptyString).
  - unfold rows, records. simpl. by rewrite !length_fmap.
  - done.
  - intros Hclean. rewrite Hcount.
    replace (sum_list (embedded_line_feeds <$> song :: rest)) with O; [lia|].
    clear -Hclean. induction Hclean as [|x l Hx _ IH]; [done|].
    by rewrite fmap_cons, sum_list_cons, embedded_line_feeds_none, <-IH.
Qed.

(** C7. For the empty list [save_to_csv] only prints the notice: it
    performs no file effect, so every file is left as it was, and no file
    is created. *)
Theorem save_to_csv_empty (path : string) :
  save_to_csv [] path = Run (Returned tt) [Print "No records to write."]
  ∧ ∀ fs, fs_after (trace (save_to_csv [] path)) fs = fs.
Proof. done. Qed.

Lemma detail_reads_no_files (tok : string) (song_list : list SongStub) :
  filter touches_file (detail_reads tok song_list) = [].
Proof. induction song_list as [|s rest IH]; [done|]. apply IH. Qed.

(** ** Quoting loses nothing *)

Lemma string_app_assoc (a b c : string) : (a +:+ b) +:+ c = a +:+ b +:+ c.
Proof.
  induction a as [|x a IH]; [done|].
  unfold String.app in *; simpl. by rewrite IH.
Qed.

Lemma unquoted_read (value : string) (c : ascii) (rest : string) :
  Str.existsb Csv.special value = false → Csv.special c = true →
  CsvRead.unquoted (value +:+ String c rest) = (value, String c rest).
Proof.
  intros Hplain Hc. induction value as [|x value IH].
  - unfold String.app; simpl. by rewrite Hc.
  - simpl in Hplain. apply orb_false_elim in Hplain as [Hx Hvalue].
    unfold String.app in *; simpl. by rewrite Hx, IH.
Qed.

Lemma quoted_read (value : string) (c : ascii) (rest : string) :
  Ascii.eqb c Str.DQUOTE = false →
  CsvRead.quoted
    (Csv.double_quotes value +:+ String Str.DQUOTE (String c rest))
  = Some (value, String c rest).
Proof.
  intros Hc. induction value as [|x value IH].
  - unfold String.app; simpl. by rewrite Hc.
  - cbn [Csv.double_quotes]. destruct (Ascii.eqb x Str.DQUOTE) eqn:Hx.
    + apply Ascii.eqb_eq in Hx as ->.
      unfold String.app in *; simpl. by rewrite IH.
    + unfold String.app in *; simpl. by rewrite Hx, IH.
Qed.

(** A field as the writer renders it, followed by a delimiter or by the
    line terminator, is read back as the value it was rendered from. *)
Lemma field_read (rendered value : string) (c : ascii) (rest : string) :
  rendered = Csv.field value ∨ rendered = Csv.quoted value →
  c = Str.COMMA ∨ c = Str.CR →
  CsvRead.field (rendered +:+ String c rest) = Some (value, String c rest).
Proof.
  intros Hrendered Hc.
  assert (Ascii.eqb c Str.DQUOTE = false ∧ Csv.special c = true)
    as [Hnot_quote Hspecial] by (by destruct Hc as [-> | ->]).
  assert (CsvRead.field (Csv.quoted value +:+ String c rest)
          = Some (value, String c rest)) as Hquoted.
  { unfold Csv.quoted.
    change (String Str.DQUOTE ?x +:+ ?y) with (String Str.DQUOTE (x +:+ y)).
    rewrite string_app_assoc. cbn [CsvRead.field]. rewrite Ascii.eqb_refl.
    by apply quoted_read. }
  destruct Hrendered as [-> | ->]; [|done]. unfold Csv.field.
  destruct (Str.existsb Csv.special value) eqn:Hplain; [done|].
  destruct value as [|x value].
  - change (EmptyString +:+ ?y) with y. cbn [CsvRead.field].
    rewrite Hnot_quote. simpl. by rewrite Hspecial.
  - assert (Ascii.eqb x Str.DQUOTE = false) as Hx.
    { simpl in Hplain. apply orb_false_elim in Hplain as [Hx _].
      unfold Csv.special in Hx.
      by destruct (Ascii.eqb x Str.COMMA), (Ascii.eqb x Str.DQUOTE). }
    change (String x value +:+ ?y) with (String x (value +:+ y)).
    cbn [CsvRead.field]. rewrite Hx.
    change (String x (value +:+ ?y)) with (String x value +:+ y).
    by rewrite unquoted_read.
Qed.

(** The rendering of a non-empty record: its fields, each rendered plainly
    or in quotes, joined by commas. *)
Lemma line_rendered (fields : list string) :
  fields ≠ [] →
  ∃ rendered,
    Forall2 (λ r v, r = Csv.field v ∨ r = Csv.quoted v) rendered fields
    ∧ Csv.line fields = Str.join "," rendered +:+ Csv.CRLF.
Proof.
  intros Hne.
  assert (Forall2 (λ r v, r = Csv.field v ∨ r = Csv.quoted v)
            (Csv.field <$> fields) fields) as Hplain.
  { clear. induction fields as [|v fields IH]; [by constructor|].
    rewrite fmap_cons. constructor; [by left|done]. }
  destruct fields as [|[|c v] [|w fields]]; [done|..].
  - exists [Csv.quoted EmptyString]. split; [|done].
    constructor; [by right|constructor].
  - by eexists.
  - by eexists.
  - by eexists.
Qed.

Lemma join_comma_cons (r r' : string) (rs : list string) :
  Str.join "," (r :: r' :: rs) = r +:+ "," +:+ Str.join "," (r' :: rs).
Proof. done. Qed.

Lemma rendered_injective (rs1 vs1 : list string) :
  Forall2 (λ r v, r = Csv.field v ∨ r = Csv.quoted v) rs1 vs1 →
  ∀ rs2 vs2 : list string,
  Forall2 (λ r v, r = Csv.field v ∨ r = Csv.quoted v) rs2 vs2 →
  rs1 ≠ [] → rs2 ≠ [] →
  Str.join "," rs1 +:+ Csv.CRLF = Str.join "," rs2 +:+ Csv.CRLF →
  vs1 = vs2.
Proof.
  induction 1 as [|r1 v1 rs1 vs1 Hr1 Hrest1 IH]; [done|].
  intros rs2 vs2 Hrs2 _ Hne2 Heq.
  destruct Hrs2 as [|r2 v2 rs2 vs2 Hr2 Hrest2]; [done|].
  destruct rs1 as [|r1' rs1], rs2 as [|r2' rs2].
  - apply Forall2_nil_inv_l in Hrest1 as ->.
    apply Forall2_nil_inv_l in Hrest2 as ->.
    apply (f_equal CsvRead.field) in Heq. unfold Str.join in Heq.
    cbn [String.concat] in Heq. unfold Csv.CRLF in Heq.
    rewrite (field_read r1 v1), (field_read r2 v2) in Heq
      by (done || by right).
    by injection Heq as ->.
  - apply (f_equal CsvRead.field) in Heq.
    rewrite join_comma_cons, !string_app_assoc in Heq.
    unfold Str.join in Heq at 1. cbn [String.concat] in Heq.
    unfold Csv.CRLF in Heq at 1.
    rewrite (field_read r1 v1) in Heq by (done || by right).
    change ("," +:+ ?x) with (String Str.COMMA x) in Heq.
    rewrite (field_read r2 v2) in Heq by (done || by left).
    by injection Heq.
  - apply (f_equal CsvRead.field) in Heq.
    rewrite join_comma_cons, !string_app_assoc in Heq.
    unfold Str.join in Heq at 2. cbn [String.concat] in Heq.
    unfold Csv.CRLF in Heq at 2.
    rewrite (field_read r2 v2) in Heq by (done || by right).
    change ("," +:+ ?x) with (String Str.COMMA x) in Heq.
    rewrite (field_read r1 v1) in Heq by (done || by left).
    by injection Heq.
  - apply (f_equal CsvRead.field) in Heq.
    rewrite !join_comma_cons, !string_app_assoc in Heq.
    change ("," +:+ ?x) with (String Str.COMMA x) in Heq.
    rewrite (field_read r1 v1), (field_read r2 v2) in Heq
      by (done || by left).
    injection Heq as -> Htail. f_equal.
    by apply (IH (r2' :: rs2) vs2).
Qed.

Lemma line_not_blank (fields : list string) :
  fields ≠ [] → Csv.line fields ≠ Csv.CRLF.
Proof.
  intros Hne Hblank.
  destruct (line_rendered fields Hne) as (rendered & Hrendered & Hline).
  pose proof Hblank as Hread. rewrite Hline in Hread. clear Hline.
  destruct Hrendered as [|r v rs vs Hr Hrest]; [done|].
  apply (f_equal CsvRead.field) in Hread. rename Hread into Hblank'.
  destruct rs as [|r' rs].
  - apply Forall2_nil_inv_l in Hrest as ->.
    unfold Str.join in Hblank'. cbn [String.concat] in Hblank'.
    unfold Csv.CRLF in Hblank' at 1.
    rewrite (field_read r v) in Hblank' by (done || by right).
    by injection Hblank' as ->.
  - rewrite join_comma_cons, !string_app_assoc in Hblank'.
    change ("," +:+ ?x) with (String Str.COMMA x) in Hblank'.
    rewrite (field_read r v) in Hblank' by (done || by left).
    by injection Hblank'.
Qed.

(** The writer's quoting loses nothing. *)
Lemma csv_line_inj (fields1 fields2 : list string) :
  Csv.line fields1 = Csv.line fields2 → fields1 = fields2.
Proof.
  intros Heq.
  destruct (decide (fields1 = [])) as [->|Hne1];
    destruct (decide (fields2 = [])) as [->|Hne2]; [done| | |].
  - by destruct (line_not_blank fields2 Hne2).
  - by destruct (line_not_blank fields1 Hne1).
  - destruct (line_rendered fields1 Hne1) as (rs1 & Hrs1 & Hline1).
    destruct (line_rendered fields2 Hne2) as (rs2 & Hrs2 & Hline2).
    rewrite Hline1, Hline2 in Heq.
    apply (rendered_injective rs1 fields1 Hrs1 rs2 fields2 Hrs2);
      [..|done].
    + intros ->. apply Forall2_nil_inv_l in Hrs1. done.
    + intros ->. apply Forall2_nil_inv_l in Hrs2. done.
Qed.

(** X15. Two lists of field values that differ are never written as the
    same record, whatever commas, quotes or line breaks the values contain;
    in particular two songs whose exported values differ never give the
    same row. *)
Theorem csv_line_distinct (fields1 fields2 : list string) :
  fields1 ≠ fields2 → Csv.line fields1 ≠ Csv.line fields2.
Proof. intros Hne Heq. by apply Hne, csv_line_inj. Qed.

Section Properties.

Variable lower : string → string.
Variable genius : string → ∀ r : Request, Response (Body r).

Abbreviation status tok r := (status_code (genius tok r)).
Abbreviation body tok r := (json (genius tok r)).

Lemma request_genius_ok (r : Request) (tok : string) :
  is_error_status (status tok r) = false →
  request_genius genius r tok = Run (Returned (body tok r)) [Get tok r].
Proof.
  intros Hok. unfold request_genius, requests_get, raise_for_status.
  rewrite bind_returned; simpl. by rewrite Hok.
Qed.

Lemma request_genius_error (r : Request) (tok : string) :
  is_error_status (status tok r) = true →
  request_genius genius r tok
  = Run (Raised (HTTPError (status tok r))) [Get tok r].
Proof.
  intros Herr. unfold request_genius, requests_get, raise_for_status.
  rewrite bind_returned; simpl. by rewrite Herr.
Qed.

(** A request never runs out of fuel and performs exactly one GET. *)
Lemma request_genius_trace (r : Request) (tok : string) :
  trace (request_genius genius r tok) = [Get tok r]
  ∧ outcome (request_genius genius r tok) ≠ OutOfFuel.
Proof.
  destruct (is_error_status (status tok r)) eqn:E.
  - by rewrite request_genius_error.
  - by rewrite request_genius_ok.
Qed.

(** ** The Identity Resolver *)

Abbreviation found_error name :=
  (ValueError ("No producer artist found for '" +:+ name +:+ "'")).

(** Whether the artist of a hit matches the name, as the loop tests it. *)
Abbreviation hit_matches name hit :=
  (Str.is_substring (lower name)
     (lower (artist_name (hit_primary_artist hit)))).

Lemma find_producer_id_loop_first (name : string) (pre post : list Hit)
    (hit : Hit) :
  Forall (λ h, hit_matches name h = false) pre →
  hit_matches name hit = true →
  find_producer_id_loop lower name (pre ++ hit :: post)
  = Run (Returned (artist_id (hit_primary_artist hit),
                   artist_name (hit_primary_artist hit))) [].
Proof.
  intros Hpre Hhit. induction Hpre as [|h pre Hh _ IH]; simpl.
  - by rewrite Hhit.
  - by rewrite Hh.
Qed.

Lemma find_producer_id_loop_none (name : string) (hits : list Hit) :
  Forall (λ h, hit_matches name h = false) hits →
  find_producer_id_loop lower name hits = Run (Raised (found_error name)) [].
Proof.
  intros Hhits. induction Hhits as [|h hits Hh _ IH]; simpl; [done|].
  by rewrite Hh.
Qed.

(** C3. When the search call succeeds, [find_producer_id] returns the
    identifier and the display name, as the API spells it, of the first hit
    in API order whose primary-artist name, lowered, has the lowered
    producer name as a substring; it performs the one search request. *)
Theorem find_producer_id_first_match (name tok : string)
    (pre post : list Hit) (hit : Hit) :
  is_error_status (status tok (Search name)) = false →
  body tok (Search name) = pre ++ hit :: post →
  Forall (λ h, hit_matches name h = false) pre →
  hit_matches name hit = true →
  find_producer_id lower genius name tok
  = Run (Returned (artist_id (hit_primary_artist hit),
                   artist_name (hit_primary_artist hit)))
        [Get tok (Search name)].
Proof.
  intros Hok Hhits Hpre Hhit. unfold find_producer_id.
  rewrite request_genius_ok, bind_returned by done.
  cbn [Body] in *. rewrite Hhits.
  by rewrite find_producer_id_loop_first.
Qed.

(** C10. With the empty string as producer name, and a lowering that maps
    the empty string to itself, [find_producer_id] returns the artist of the
    very first hit whatever its name: nothing rejects an empty name. *)
Theorem find_producer_id_empty_name (tok : string) (hit : Hit)
    (rest : list Hit) :
  lower EmptyString = EmptyString →
  is_error_status (status tok (Search EmptyString)) = false →
  body tok (Search EmptyString) = hit :: rest →
  find_producer_id lower genius EmptyString tok
  = Run (Returned (artist_id (hit_primary_artist hit),
                   artist_name (hit_primary_artist hit)))
        [Get tok (Search EmptyString)].
Proof.
  intros Hlower Hok Hhits. unfold find_producer_id.
  rewrite request_genius_ok, bind_returned by done.
  cbn [Body] in *. rewrite Hhits.
  simpl. by rewrite Hlower, is_substring_empty.
Qed.

(** ** The Catalog Paginator *)

Abbreviation songs_page artist n := (ArtistSongs artist 50 n).

Lemma page_reads_S (tok : string) (artist first : Z) (count : nat) :
  page_reads tok artist first (S count)
  = Get tok (songs_page artist first) :: Sleep 500
    :: page_reads tok artist (first + 1) count.
Proof.
  unfold page_reads. rewrite seqZ_cons by lia.
  by replace (Z.pred (Z.of_nat (S count))) with (Z.of_nat count) by lia.
Qed.

Lemma fetch_all_songs_loop_pages (artist : Z) (tok : string)
    (pages : list (list SongStub)) :
  ∀ (fuel : nat) (first : Z) (all_songs : list SongStub),
  (∀ (i : nat) songs, pages !! i = Some songs →
     is_error_status (status tok (songs_page artist (first + Z.of_nat i))) = false
     ∧ body tok (songs_page artist (first + Z.of_nat i)) = songs
     ∧ songs ≠ []) →
  is_error_status
    (status tok (songs_page artist (first + Z.of_nat (length pages)))) = false →
  body tok (songs_page artist (first + Z.of_nat (length pages))) = [] →
  (length pages < fuel)%nat →
  fetch_all_songs_loop genius fuel artist tok first all_songs
  = Run (Returned (all_songs ++ concat pages))
        (page_reads tok artist first (length pages)
         ++ [Get tok (songs_page artist (first + Z.of_nat (length pages)))]).
Proof.
  induction pages as [|songs pages IH];
    intros fuel first all_songs Hpages Hok Hlast Hfuel;
    (destruct fuel as [|fuel]; [simpl in Hfuel; lia|]).
  - cbn [length Z.of_nat] in *. rewrite Z.add_0_r in Hok, Hlast.
    cbn [fetch_all_songs_loop].
    rewrite request_genius_ok, bind_returned by done.
    cbn [Body] in *. rewrite Hlast. simpl. by rewrite app_nil_r, Z.add_0_r.
  - destruct (Hpages 0%nat songs eq_refl) as (Hok0 & Hbody0 & Hne).
    rewrite Z.add_0_r in Hok0, Hbody0.
    cbn [fetch_all_songs_loop].
    rewrite request_genius_ok, bind_returned by done.
    cbn [Body] in *. rewrite Hbody0.
    destruct songs as [|s songs]; [done|].
    rewrite (IH fuel (first + 1) (all_songs ++ s :: songs)).
    + cbn [length]. rewrite page_reads_S. simpl.
      rewrite <-app_assoc.
      by replace (first + 1 + Z.of_nat (length pages))
        with (first + Z.of_nat (S (length pages))) by lia.
    + intros i songs' Hi.
      replace (first + 1 + Z.of_nat i) with (first + Z.of_nat (S i)) by lia.
      by apply Hpages.
    + by replace (first + 1 + Z.of_nat (length pages))
        with (first + Z.of_nat (length (songs :: pages))) by (simpl; lia).
    + by replace (first + 1 + Z.of_nat (length pages))
        with (first + Z.of_nat (length (songs :: pages))) by (simpl; lia).
    + simpl in Hfuel. lia.
Qed.

(** C2. When the API serves the non-empty pages [pages] as pages
    1, 2, ..., and an empty page right after them, [fetch_all_songs_for_artist]
    returns their concatenation in page order. It requests page 1, then
    each next page number, sleeping after every non-empty page, and the
    request that meets the empty page is its last effect. *)
Theorem fetch_all_songs_concatenates_pages (artist : Z) (tok : string)
    (pages : list (list SongStub)) (fuel : nat) :
  (∀ (i : nat) songs, pages !! i = Some songs →
     is_error_status (status tok (songs_page artist (1 + Z.of_nat i))) = false
     ∧ body tok (songs_page artist (1 + Z.of_nat i)) = songs
     ∧ songs ≠ []) →
  is_error_status (status tok (songs_page artist (1 + Z.of_nat (length pages)))) = false →
  body tok (songs_page artist (1 + Z.of_nat (length pages))) = [] →
  (length pages < fuel)%nat →
  fetch_all_songs_for_artist genius fuel artist tok
  = Run (Returned (concat pages))
        (page_reads tok artist 1 (length pages)
         ++ [Get tok (songs_page artist (1 + Z.of_nat (length pages)))]).
Proof.
  intros. unfold fetch_all_songs_for_artist.
  by rewrite (fetch_all_songs_loop_pages artist tok pages).
Qed.

(** Termination of the loop, counted from the page it is about to read. *)
Lemma fetch_all_songs_loop_halts (artist : Z) (tok : string) (n : Z) :
  (∀ m, n ≤ m →
     is_error_status (status tok (songs_page artist m)) = false
     ∧ body tok (songs_page artist m) = []) →
  ∀ (d : nat) (page : Z) (all_songs : list SongStub) (fuel : nat),
  n ≤ page + Z.of_nat d → (d < fuel)%nat →
  outcome (fetch_all_songs_loop genius fuel artist tok page all_songs)
  ≠ OutOfFuel.
Proof.
  intros Hempty d.
  induction d as [|d IH]; intros page all_songs fuel Hn Hfuel;
    (destruct fuel as [|fuel]; [lia|]); cbn [fetch_all_songs_loop].
  - destruct (Hempty page) as [Hok Hbody]; [lia|].
    rewrite request_genius_ok, bind_returned by done.
    cbn [Body] in *. by rewrite Hbody.
  - destruct (is_error_status (status tok (songs_page artist page))) eqn:E.
    + by rewrite request_genius_error, bind_raised.
    + rewrite request_genius_ok, bind_returned by done.
      destruct (body tok (songs_page artist page)) as [|s songs];
        [done|].
      cbn [outcome]. unfold sleep, emit. rewrite bind_returned. cbn [outcome].
      apply IH; lia.
Qed.

Lemma fetch_all_songs_loop_returns (artist : Z) (tok : string) (n : Z) :
  (∀ m, n ≤ m →
     is_error_status (status tok (songs_page artist m)) = false
     ∧ body tok (songs_page artist m) = []) →
  ∀ (d : nat) (page : Z) (all_songs : list SongStub),
  n ≤ page + Z.of_nat d →
  (∀ m, page ≤ m < n →
     is_error_status (status tok (songs_page artist m)) = false) →
  ∃ songs, ∀ fuel, (d < fuel)%nat →
    outcome (fetch_all_songs_loop genius fuel artist tok page all_songs)
    = Returned songs.
Proof.
  intros Hempty d.
  induction d as [|d IH]; intros page all_songs Hn Hbefore.
  - exists all_songs. intros [|fuel] Hfuel; [lia|].
    cbn [fetch_all_songs_loop].
    destruct (Hempty page) as [Hok Hbody]; [lia|].
    rewrite request_genius_ok, bind_returned by done.
    cbn [Body] in *. by rewrite Hbody.
  - assert (is_error_status (status tok (songs_page artist page)) = false)
      as Hok.
    { destruct (decide (n ≤ page)); [by apply Hempty|apply Hbefore; lia]. }
    destruct (body tok (songs_page artist page)) as [|s songs] eqn:Hbody.
    + exists all_songs. intros [|fuel] Hfuel; [lia|].
      cbn [fetch_all_songs_loop].
      rewrite request_genius_ok, bind_returned by done.
      cbn [Body] in *. by rewrite Hbody.
    + destruct (IH (page + 1) (all_songs ++ s :: songs)) as [result Hres].
      { lia. }
      { intros m Hm. apply Hbefore. lia. }
      exists result. intros [|fuel] Hfuel; [lia|].
      cbn [fetch_all_songs_loop].
      rewrite request_genius_ok, bind_returned by done.
      cbn [Body] in *. rewrite Hbody.
      cbn [outcome]. unfold sleep, emit. rewrite bind_returned. cbn [outcome].
      apply Hres. lia.
Qed.

(** C8. If from some page number [n] on every page of the artist's songs
    is served and empty, then with enough fuel the loop of
    [fetch_all_songs_for_artist] always finishes, and more fuel never
    changes that. It finishes by returning a list, the same one whatever
    the fuel, whenever the pages before [n] are served as well (a page
    request that fails ends the loop with the transport error instead). *)
Theorem fetch_all_songs_terminates (artist : Z) (tok : string) (n : Z) :
  (∀ m, n ≤ m →
     is_error_status (status tok (songs_page artist m)) = false
     ∧ body tok (songs_page artist m) = []) →
  ∃ fuel0 : nat,
    (∀ fuel, (fuel0 ≤ fuel)%nat →
       outcome (fetch_all_songs_for_artist genius fuel artist tok)
       ≠ OutOfFuel)
    ∧ ((∀ m, 1 ≤ m < n →
          is_error_status (status tok (songs_page artist m)) = false) →
       ∃ songs : list SongStub, ∀ fuel, (fuel0 ≤ fuel)%nat →
         outcome (fetch_all_songs_for_artist genius fuel artist tok)
         = Returned songs).
Proof.
  intros Hempty. exists (S (Z.to_nat n)). split.
  - intros fuel Hfuel.
    apply (fetch_all_songs_loop_halts artist tok n Hempty (Z.to_nat n));
      lia.
  - intros Hbefore.
    destruct (fetch_all_songs_loop_returns artist tok n Hempty
                (Z.to_nat n) 1 []) as [songs Hsongs]; [lia|done|].
    exists songs. intros fuel Hfuel. apply Hsongs. lia.
Qed.

(** ** The Producer Filter *)

(** The detail record the API serves for a stub. *)
Abbreviation detail_of tok s := (body tok (Song (stub_id s))).

Abbreviation detail_served tok s :=
  (is_error_status (status tok (Song (stub_id s))) = false).

Abbreviation detail_fails tok s :=
  (is_error_status (status tok (Song (stub_id s))) = true).

(** The producer is among the credited producers of the stub's song. *)
Abbreviation credited producer_id tok s :=
  (producer_id ∈ artist_id <$> credits (detail_of tok s)).

(** The record the filter builds for a stub. *)
Abbreviation record_of tok s :=
  (output_record (stub_id s) (detail_of tok s)
     (artist_name <$> credits (detail_of tok s))).

(** One iteration of the loop on a stub whose detail is served. *)
Lemma filter_songs_loop_step (s : SongStub) (rest : list SongStub)
    (producer_id : Z) (tok : string) (filtered : list Dict) :
  detail_served tok s →
  filter_songs_loop genius (s :: rest) producer_id tok filtered
  = Run (Returned tt) [Get tok (Song (stub_id s)); Sleep 200]
    ≫= λ _, filter_songs_loop genius rest producer_id tok
              (if bool_decide (credited producer_id tok s)
               then filtered ++ [record_of tok s] else filtered).
Proof.
  intros Hok. cbn [filter_songs_loop].
  rewrite request_genius_ok by done.
  rewrite !bind_returned. unfold sleep, emit. by rewrite !bind_returned.
Qed.

Lemma filter_songs_loop_served (song_list : list SongStub) (producer_id : Z)
    (tok : string) :
  ∀ filtered : list Dict,
  Forall (λ s, detail_served tok s) song_list →
  filter_songs_loop genius song_list producer_id tok filtered
  = Run (Returned
           (filtered ++
            ((λ s, record_of tok s)
               <$> filter (λ s, credited producer_id tok s) song_list)))
        (detail_reads tok song_list).
Proof.
  induction song_list as [|s rest IH]; intros filtered Hok.
  - simpl. by rewrite app_nil_r.
  - apply Forall_cons in Hok as [Hs Hrest].
    rewrite filter_songs_loop_step, bind_returned, IH by done.
    rewrite filter_cons. simpl. f_equal. f_equal.
    case_bool_decide as Hc.
    + rewrite decide_True by done. by rewrite <-app_assoc.
    + by rewrite decide_False by done.
Qed.

Lemma filter_songs_loop_app (l1 l2 : list SongStub) (producer_id : Z)
    (tok : string) :
  ∀ filtered : list Dict,
  filter_songs_loop genius (l1 ++ l2) producer_id tok filtered
  = filter_songs_loop genius l1 producer_id tok filtered
    ≫= λ filtered', filter_songs_loop genius l2 producer_id tok filtered'.
Proof.
  induction l1 as [|s l1 IH]; intros filtered.
  - simpl. rewrite bind_returned. simpl. by rewrite run_eta.
  - destruct (is_error_status (status tok (Song (stub_id s)))) eqn:E.
    + rewrite <-app_comm_cons. cbn [filter_songs_loop].
      rewrite request_genius_error by done.
      by rewrite !bind_raised.
    + rewrite <-app_comm_cons, !filter_songs_loop_step by done.
      rewrite bind_assoc. by rewrite !bind_returned, IH.
Qed.

Lemma filter_songs_loop_fails (pre post : list SongStub) (s : SongStub)
    (producer_id : Z) (tok : string) (filtered : list Dict) :
  Forall (λ s, detail_served tok s) pre →
  detail_fails tok s →
  filter_songs_loop genius (pre ++ s :: post) producer_id tok filtered
  = Run (Raised (HTTPError (status tok (Song (stub_id s)))))
        (detail_reads tok pre ++ [Get tok (Song (stub_id s))]).
Proof.
  intros Hpre Hs.
  rewrite filter_songs_loop_app, filter_songs_loop_served by done.
  rewrite bind_returned. cbn [filter_songs_loop].
  by rewrite request_genius_error, bind_raised by done.
Qed.

(** A list with a failing detail splits at the first one. *)
Lemma first_failing_detail (tok : string) (song_list : list SongStub)
    (s : SongStub) :
  s ∈ song_list → detail_fails tok s →
  ∃ pre s' post,
    song_list = pre ++ s' :: post
    ∧ Forall (λ s, detail_served tok s) pre
    ∧ detail_fails tok s'.
Proof.
  intros Hin Hs.
  induction song_list as [|x rest IH]; [by apply elem_of_nil in Hin|].
  destruct (is_error_status (status tok (Song (stub_id x)))) eqn:E.
  - by exists [], x, rest.
  - apply elem_of_cons in Hin as [->|Hin]; [congruence|].
    destruct (IH Hin) as (pre & s' & post & -> & Hpre & Hs').
    exists (x :: pre), s', post. split_and!; [done| |done].
    by apply Forall_cons.
Qed.

(** C1. When every detail request of the pass is served,
    [filter_songs_by_producer] returns, for the stubs whose detail credits
    the producer identifier and for no others, the projected record of the
    stub: the result is the input list filtered by that test, one record
    per kept stub, in input order. It fetches each stub once, in order.
    When the stubs carry pairwise different identifiers, no two records of
    the result are equal. *)
Theorem filter_songs_by_producer_stable_filter (song_list : list SongStub)
    (producer_id : Z) (tok : string) :
  Forall (λ s, detail_served tok s) song_list →
  filter_songs_by_producer genius song_list producer_id tok
  = Run (Returned
           ((λ s, record_of tok s)
              <$> filter (λ s, credited producer_id tok s) song_list))
        (detail_reads tok song_list)
  ∧ (NoDup (stub_id <$> song_list) →
     NoDup ((λ s, record_of tok s)
              <$> filter (λ s, credited producer_id tok s) song_list)).
Proof.
  intros Hok. split.
  - unfold filter_songs_by_producer. by rewrite filter_songs_loop_served.
  - intros Hids. apply NoDup_fmap_2_strong.
    + intros [x] [y] _ _ Heq. injection Heq as Hid _. simpl in Hid.
      by rewrite Hid.
    + by apply NoDup_filter, (NoDup_fmap_1 stub_id).
Qed.

(** C9. A song whose detail record has no producer_artists field is
    treated as having no credited producer: it raises nothing and
    contributes no record, so the pass has the same outcome as without
    that stub; on its own it yields the empty list. *)
Theorem filter_excludes_song_without_credits (pre post : list SongStub)
    (s : SongStub) (producer_id : Z) (tok : string) :
  detail_served tok s →
  producer_artists (detail_of tok s) = None →
  outcome (filter_songs_by_producer genius (pre ++ s :: post) producer_id tok)
  = outcome (filter_songs_by_producer genius (pre ++ post) producer_id tok)
  ∧ filter_songs_by_producer genius [s] producer_id tok
    = Run (Returned []) [Get tok (Song (stub_id s)); Sleep 200].
Proof.
  intros Hok Hnone.
  assert (∀ rest filtered,
    filter_songs_loop genius (s :: rest) producer_id tok filtered
    = Run (Returned tt) [Get tok (Song (stub_id s)); Sleep 200]
      ≫= λ _, filter_songs_loop genius rest producer_id tok filtered)
    as Hstep.
  { intros rest filtered. rewrite filter_songs_loop_step by done.
    unfold credits. by rewrite Hnone. }
  split.
  - unfold filter_songs_by_producer.
    rewrite !filter_songs_loop_app, !outcome_bind.
    destruct (outcome (filter_songs_loop genius pre producer_id tok []));
      [|done..].
    by rewrite Hstep, outcome_bind.
  - unfold filter_songs_by_producer. by rewrite Hstep.
Qed.

(** ** The whole run *)

Lemma find_producer_id_loop_trace (name : string) (hits : list Hit) :
  trace (find_producer_id_loop lower name hits) = [].
Proof.
  induction hits as [|hit hits IH]; [done|]. simpl.
  by destruct (hit_matches name hit).
Qed.

Lemma find_producer_id_trace (name tok : string) :
  trace (find_producer_id lower genius name tok) = [Get tok (Search name)].
Proof.
  unfold find_producer_id. rewrite trace_bind.
  destruct (request_genius_trace (Search name) tok) as [Htrace _].
  cbn [Body] in Htrace. rewrite Htrace.
  destruct (outcome _); by rewrite ?find_producer_id_loop_trace.
Qed.

Lemma fetch_all_songs_loop_no_files (fuel : nat) (artist : Z) (tok : string) :
  ∀ (page : Z) (all_songs : list SongStub),
  filter touches_file
    (trace (fetch_all_songs_loop genius fuel artist tok page all_songs)) = [].
Proof.
  induction fuel as [|fuel IH]; intros page all_songs; [done|].
  cbn [fetch_all_songs_loop]. rewrite trace_bind, filter_app.
  destruct (request_genius_trace (songs_page artist page) tok)
    as [Htrace _].
  cbn [Body] in Htrace. rewrite Htrace.
  destruct (outcome _) as [[|s songs]| |]; try done.
  unfold sleep, emit. rewrite bind_returned. cbn [trace].
  rewrite filter_app. by rewrite IH.
Qed.

Lemma filter_songs_loop_no_files (song_list : list SongStub)
    (producer_id : Z) (tok : string) :
  ∀ filtered : list Dict,
  filter touches_file
    (trace (filter_songs_loop genius song_list producer_id tok filtered)) = [].
Proof.
  induction song_list as [|s rest IH]; intros filtered; [done|].
  cbn [filter_songs_loop]. rewrite trace_bind, filter_app.
  destruct (request_genius_trace (Song (stub_id s)) tok) as [Htrace _].
  cbn [Body] in Htrace. rewrite Htrace.
  destruct (outcome _) as [detail| |]; try done.
  unfold sleep, emit. rewrite bind_returned. cbn [trace].
  rewrite filter_app. by rewrite IH.
Qed.

(** C6. When the search succeeds and no hit matches the name, which
    includes an empty list of hits, [find_producer_id] raises the not-found
    error whose message quotes the name. A run of [main] for that name stops
    there with this error, having printed one line and sent one request,
    and leaves every file as it was. *)
Theorem find_producer_id_not_found (name tok : string) :
  is_error_status (status tok (Search name)) = false →
  Forall (λ h, hit_matches name h = false) (body tok (Search name)) →
  find_producer_id lower genius name tok
  = Run (Raised (found_error name)) [Get tok (Search name)]
  ∧ ∀ (fuel : nat) (args : Args),
      producer args = name → token args = Some tok → tok ≠ EmptyString →
      main lower genius fuel args
      = Run (Raised (found_error name))
            [Print ("Looking up producer '" +:+ name +:+ "'…");
             Get tok (Search name)]
      ∧ ∀ fs, fs_after (trace (main lower genius fuel args)) fs = fs.
Proof.
  intros Hok Hnone.
  assert (find_producer_id lower genius name tok
          = Run (Raised (found_error name)) [Get tok (Search name)]) as Hfind.
  { unfold find_producer_id.
    rewrite request_genius_ok, bind_returned by done.
    by rewrite find_producer_id_loop_none. }
  split; [done|].
  intros fuel args Hname Htoken Hne.
  assert (main lower genius fuel args
          = Run (Raised (found_error name))
              [Print ("Looking up producer '" +:+ name +:+ "'…");
               Get tok (Search name)]) as Hmain.
  { unfold main. rewrite Htoken, Hname.
    destruct tok as [|c tok']; [done|].
    unfold print, emit. rewrite bind_returned.
    by rewrite Hfind, bind_raised. }
  split; [done|]. intros fs. by rewrite Hmain.
Qed.

(** C5. If the detail request of any stub of the pass fails, that is, is
    answered with a status that [raise_for_status] rejects, then
    [filter_songs_by_producer] raises the transport error of the first
    failing stub right after that request: nothing later is fetched and no
    list, partial or not, is returned. A run of [main] whose filtering pass
    this is ends with that error and leaves every file as it was. *)
Theorem detail_failure_aborts_pass (song_list : list SongStub) (s : SongStub)
    (producer_id : Z) (tok : string) :
  s ∈ song_list → detail_fails tok s →
  (∃ pre s' post,
     song_list = pre ++ s' :: post
     ∧ Forall (λ x, detail_served tok x) pre
     ∧ detail_fails tok s'
     ∧ filter_songs_by_producer genius song_list producer_id tok
       = Run (Raised (HTTPError (status tok (Song (stub_id s')))))
             (detail_reads tok pre ++ [Get tok (Song (stub_id s'))]))
  ∧ ∀ (fuel : nat) (args : Args) (pname : string),
      token args = Some tok → tok ≠ EmptyString →
      outcome (find_producer_id lower genius (producer args) tok)
      = Returned (producer_id, pname) →
      outcome (fetch_all_songs_for_artist genius fuel producer_id tok)
      = Returned song_list →
      (∃ code, outcome (main lower genius fuel args) = Raised (HTTPError code)
               ∧ is_error_status code = true)
      ∧ ∀ fs, fs_after (trace (main lower genius fuel args)) fs = fs.
Proof.
  intros Hin Hfails.
  destruct (first_failing_detail tok song_list s Hin Hfails)
    as (pre & s' & post & -> & Hpre & Hs').
  pose proof (filter_songs_loop_fails pre post s' producer_id tok []
                Hpre Hs') as Hfilter.
  split.
  { by exists pre, s', post. }
  intros fuel args pname Htoken Hne Hfind Hfetch.
  assert (∃ t, main lower genius fuel args
               = Run (Raised (HTTPError (status tok (Song (stub_id s'))))) t
               ∧ filter touches_file t = []) as (t & Hmain & Ht).
  { unfold main. rewrite Htoken.
    destruct tok as [|c tok'] eqn:Etok; [done|]. rewrite <-Etok in *.
    unfold print, emit. rewrite bind_returned.
    rewrite (bind_when_returned _ _ _ Hfind). cbn [outcome trace].
    rewrite bind_returned.
    rewrite (bind_when_returned _ _ _ Hfetch). cbn [outcome trace].
    rewrite !bind_returned. cbn [outcome trace].
    unfold filter_songs_by_producer. rewrite Hfilter, bind_raised.
    cbn [outcome trace]. eexists. split; [done|].
    rewrite find_producer_id_trace.
    rewrite !filter_app.
    unfold fetch_all_songs_for_artist.
    rewrite fetch_all_songs_loop_no_files.
    by rewrite detail_reads_no_files. }
  split.
  - exists (status tok (Song (stub_id s'))). by rewrite Hmain.
  - intros fs. rewrite Hmain. by apply fs_after_untouched.
Qed.

(** ** Failures before the filtering pass *)

(** Without a token [main] exits with status 2 before any request, print
    or file effect. *)
Lemma main_requires_token (fuel : nat) (args : Args) :
  token args = None ∨ token args = Some EmptyString →
  main lower genius fuel args = Run (Raised (SystemExit 2)) [].
Proof. unfold main. by intros [-> | ->]. Qed.

(** X2. A failing search request makes [find_producer_id] raise the
    transport error after that one request: it is not retried. *)
Theorem find_producer_id_transport_error (name tok : string) :
  is_error_status (status tok (Search name)) = true →
  find_producer_id lower genius name tok
  = Run (Raised (HTTPError (status tok (Search name))))
        [Get tok (Search name)].
Proof.
  intros Herr. unfold find_producer_id.
  by rewrite request_genius_error, bind_raised.
Qed.

Lemma fetch_all_songs_loop_page_fails (artist : Z) (tok : string)
    (pages : list (list SongStub)) :
  ∀ (fuel : nat) (first : Z) (all_songs : list SongStub),
  (∀ (i : nat) songs, pages !! i = Some songs →
     is_error_status (status tok (songs_page artist (first + Z.of_nat i)))
     = false
     ∧ body tok (songs_page artist (first + Z.of_nat i)) = songs
     ∧ songs ≠ []) →
  is_error_status
    (status tok (songs_page artist (first + Z.of_nat (length pages))))
  = true →
  (length pages < fuel)%nat →
  fetch_all_songs_loop genius fuel artist tok first all_songs
  = Run (Raised
           (HTTPError
              (status tok
                 (songs_page artist (first + Z.of_nat (length pages))))))
        (page_reads tok artist first (length pages)
         ++ [Get tok (songs_page artist (first + Z.of_nat (length pages)))]).
Proof.
  induction pages as [|songs pages IH];
    intros fuel first all_songs Hpages Herr Hfuel;
    (destruct fuel as [|fuel]; [simpl in Hfuel; lia|]).
  - cbn [length Z.of_nat] in *. rewrite Z.add_0_r in *.
    cbn [fetch_all_songs_loop].
    by rewrite request_genius_error, bind_raised.
  - destruct (Hpages 0%nat songs eq_refl) as (Hok0 & Hbody0 & Hne).
    rewrite Z.add_0_r in Hok0, Hbody0.
    cbn [fetch_all_songs_loop].
    rewrite request_genius_ok, bind_returned by done.
    cbn [Body] in *. rewrite Hbody0.
    destruct songs as [|s songs]; [done|].
    cbn [length] in *.
    replace (first + Z.of_nat (S (length pages)))
      with (first + 1 + Z.of_nat (length pages)) in * by lia.
    rewrite (IH fuel (first + 1) (all_songs ++ s :: songs)).
    + by rewrite page_reads_S.
    + intros i songs' Hi.
      replace (first + 1 + Z.of_nat i) with (first + Z.of_nat (S i)) by lia.
      by apply Hpages.
    + done.
    + lia.
Qed.

(** X3. When a page request fails after the non-empty pages [pages],
    [fetch_all_songs_for_artist] raises the transport error of that request
    and returns nothing of the pages read so far. *)
Theorem fetch_all_songs_page_failure (artist : Z) (tok : string)
    (pages : list (list SongStub)) (fuel : nat) :
  (∀ (i : nat) songs, pages !! i = Some songs →
     is_error_status (status tok (songs_page artist (1 + Z.of_nat i))) = false
     ∧ body tok (songs_page artist (1 + Z.of_nat i)) = songs
     ∧ songs ≠ []) →
  is_error_status
    (status tok (songs_page artist (1 + Z.of_nat (length pages)))) = true →
  (length pages < fuel)%nat →
  fetch_all_songs_for_artist genius fuel artist tok
  = Run (Raised
           (HTTPError
              (status tok (songs_page artist (1 + Z.of_nat (length pages))))))
        (page_reads tok artist 1 (length pages)
         ++ [Get tok (songs_page artist (1 + Z.of_nat (length pages)))]).
Proof.
  intros. unfold fetch_all_songs_for_artist.
  by apply fetch_all_songs_loop_page_fails.
Qed.

(** ** Runs that reach the export *)

(** Every record of a finished pass is the projection of some song. *)
Lemma filter_songs_loop_projected (song_list : list SongStub)
    (producer_id : Z) (tok : string) :
  ∀ (filtered records : list Dict),
  Forall (λ r, ∃ song, r = projected song) filtered →
  outcome (filter_songs_loop genius song_list producer_id tok filtered)
  = Returned records →
  Forall (λ r, ∃ song, r = projected song) records.
Proof.
  induction song_list as [|s rest IH]; intros filtered records Hfiltered.
  - simpl. by intros [= <-].
  - destruct (is_error_status (status tok (Song (stub_id s)))) eqn:E.
    + cbn [filter_songs_loop].
      by rewrite request_genius_error, bind_raised.
    + rewrite filter_songs_loop_step, bind_returned by done.
      cbn [outcome]. apply IH. case_bool_decide; [|done].
      apply Forall_app. split; [done|].
      apply Forall_singleton. by exists (stub_id s, detail_of tok s).
Qed.


(** X4. Every record a finished pass returns has the same keys, in the
    same order. *)
Theorem filter_songs_by_producer_uniform_keys (song_list : list SongStub)
    (producer_id : Z) (tok : string) (records : list Dict) :
  outcome (filter_songs_by_producer genius song_list producer_id tok)
  = Returned records →
  Forall (λ r, keys r = output_fields) records.
Proof.
  intros Hrun.
  eapply Forall_impl.
  - by apply (filter_songs_loop_projected song_list producer_id tok []).
  - intros r [song ->]. apply keys_projected.
Qed.

Lemma fs_after_file_events (t : list Event) (fs : gmap string string) :
  fs_after t fs = fs_after (filter touches_file t) fs.
Proof.
  unfold fs_after. revert fs.
  induction t as [|e t IH]; intros fs; [done|].
  rewrite filter_cons. destruct e; simpl; apply IH.
Qed.

Lemma find_producer_id_no_files (name tok : string) :
  filter touches_file (trace (find_producer_id lower genius name tok)) = [].
Proof. by rewrite find_producer_id_trace. Qed.

(** A run that gets through the resolver, the paginator and the filter ends
    as the export of the filtered records does, and its file effects are
    those of the export. *)
Lemma main_reaches_export (fuel : nat) (args : Args) (tok pname : string)
    (pid : Z) (all_songs : list SongStub) (produced : list Dict) :
  token args = Some tok → tok ≠ EmptyString →
  outcome (find_producer_id lower genius (producer args) tok)
  = Returned (pid, pname) →
  outcome (fetch_all_songs_for_artist genius fuel pid tok)
  = Returned all_songs →
  outcome (filter_songs_by_producer genius all_songs pid tok)
  = Returned produced →
  outcome (main lower genius fuel args)
  = outcome (save_to_csv produced (output args))
  ∧ filter touches_file (trace (main lower genius fuel args))
    = filter touches_file (trace (save_to_csv produced (output args))).
Proof.
  intros Htoken Hne Hfind Hfetch Hfilter.
  pose proof (find_producer_id_no_files (producer args) tok) as Hf1.
  pose proof (fetch_all_songs_loop_no_files fuel pid tok 1 []) as Hf2.
  pose proof (filter_songs_loop_no_files all_songs pid tok []) as Hf3.
  unfold main. rewrite Htoken.
  destruct tok as [|c tok'] eqn:Etok; [done|]. rewrite <-Etok in *.
  unfold print, emit. rewrite bind_returned.
  rewrite (bind_when_returned _ _ _ Hfind). cbn [outcome trace].
  rewrite bind_returned.
  rewrite (bind_when_returned _ _ _ Hfetch). cbn [outcome trace].
  rewrite !bind_returned. cbn [outcome trace].
  rewrite (bind_when_returned _ _ _ Hfilter). cbn [outcome trace].
  rewrite !bind_returned. cbn [outcome trace].
  rewrite outcome_bind, trace_bind.
  split.
  - by destruct (outcome (save_to_csv produced (output args))) as [[]| |].
  - rewrite !filter_app.
    unfold fetch_all_songs_for_artist, filter_songs_by_producer in *.
    rewrite Hf1, Hf2, Hf3. simpl.
    destruct (outcome (save_to_csv produced (output args)));
      by rewrite ?filter_app, ?app_nil_r.
Qed.

(** X5. A run in which the producer resolves, the catalogue is read to
    its end and every detail request is served returns normally. When no
    song credits the producer it touches no file; otherwise the file at
    the output path holds the header record followed by the records of the
    credited songs, in catalogue order, whatever it held before, and no
    other file changes. *)
Theorem main_exports_credited_songs (fuel : nat) (args : Args)
    (tok pname : string) (pid : Z) (all_songs : list SongStub) :
  token args = Some tok → tok ≠ EmptyString →
  outcome (find_producer_id lower genius (producer args) tok)
  = Returned (pid, pname) →
  outcome (fetch_all_songs_for_artist genius fuel pid tok)
  = Returned all_songs →
  Forall (λ s, detail_served tok s) all_songs →
  outcome (main lower genius fuel args) = Returned tt
  ∧ ∀ fs,
      fs_after (trace (main lower genius fuel args)) fs
      = match filter (λ s, credited pid tok s) all_songs with
        | [] => fs
        | kept =>
            <[output args :=
                written
                  (Csv.line output_fields
                   :: ((λ s, Csv.line
                               (output_values (stub_id s, detail_of tok s)))
                         <$> kept))]> fs
        end.
Proof.
  intros Htoken Hne Hfind Hfetch Hserved.
  pose proof (filter_songs_loop_served all_songs pid tok [] Hserved)
    as Hfilter.
  destruct (main_reaches_export fuel args tok pname pid all_songs _
              Htoken Hne Hfind Hfetch (f_equal outcome Hfilter))
    as [Hout Hfiles].
  cbn [app] in Hout, Hfiles.
  destruct (filter (λ s, credited pid tok s) all_songs) as [|s kept].
  - split; [by rewrite Hout|].
    intros fs. by rewrite fs_after_file_events, Hfiles.
  - assert ((λ x, record_of tok x) <$> s :: kept
            = projected
                <$> ((λ x, (stub_id x, detail_of tok x) : Z * SongDetail)
                       <$> s :: kept))
      as Hrecords by (by rewrite <-list_fmap_compose).
    rewrite Hrecords, fmap_cons, save_to_csv_projected in Hout, Hfiles.
    split; [by rewrite Hout|].
    intros fs. rewrite fs_after_file_events, Hfiles.
    cbn [trace]. rewrite <-fs_after_file_events.
    cbn [fs_after foldl fs_step].
    etrans; [apply (fs_after_writes (output args) _ fs EmptyString)|].
    f_equal. unfold String.app at 1. cbn [written foldr]. do 2 f_equal.
    rewrite !fmap_cons. f_equal. by rewrite <-list_fmap_compose.
Qed.


(** ** What a finished stage tells about the API *)

Lemma find_producer_id_loop_returned (name : string) (hits : list Hit)
    (id : Z) (display : string) :
  outcome (find_producer_id_loop lower name hits) = Returned (id, display) →
  ∃ pre hit post,
    hits = pre ++ hit :: post
    ∧ Forall (λ h, hit_matches name h = false) pre
    ∧ hit_matches name hit = true
    ∧ hit_primary_artist hit = {| artist_id := id; artist_name := display |}.
Proof.
  induction hits as [|h hits IH]; [done|]. cbn [find_producer_id_loop].
  destruct (hit_matches name h) eqn:Hh.
  - intros [= <- <-]. exists [], h, hits. split_and!; try done.
    by destruct h as [[]].
  - intros (pre & hit & post & -> & Hpre & Hhit & Hartist)%IH.
    exists (h :: pre), hit, post. split_and!; try done.
    by apply Forall_cons.
Qed.

(** X8. Whatever [find_producer_id] returns is the artist of a hit the
    search served: the first hit, in API order, whose lowered artist name
    contains the lowered query as a contiguous piece; the name returned is
    that artist's name as served. *)
Theorem find_producer_id_sound (name tok : string) (id : Z)
    (display : string) :
  outcome (find_producer_id lower genius name tok) = Returned (id, display) →
  is_error_status (status tok (Search name)) = false
  ∧ (∃ pre hit post,
       body tok (Search name) = pre ++ hit :: post
       ∧ Forall (λ h, hit_matches name h = false) pre
       ∧ hit_primary_artist hit
         = {| artist_id := id; artist_name := display |})
  ∧ ∃ before after, lower display = before +:+ lower name +:+ after.
Proof.
  unfold find_producer_id.
  destruct (is_error_status (status tok (Search name))) eqn:E.
  { by rewrite request_genius_error, bind_raised. }
  rewrite request_genius_ok, bind_returned by done. cbn [outcome].
  intros (pre & hit & post & Hhits & Hpre & Hhit & Hartist)
    %find_producer_id_loop_returned.
  split; [done|]. split.
  - by exists pre, hit, post.
  - apply is_substring_spec. by rewrite Hartist in Hhit.
Qed.

(** Every run of the loop, from the page it starts at: it reads some
    number of served, non-empty pages in page order and then stops in one
    of three ways. *)
Lemma fetch_all_songs_loop_anatomy (artist : Z) (tok : string) (fuel : nat) :
  ∀ (first : Z) (all_songs : list SongStub),
  ∃ pages : list (list SongStub),
    (length pages ≤ fuel)%nat
    ∧ (∀ (i : nat) songs, pages !! i = Some songs →
         is_error_status (status tok (songs_page artist (first + Z.of_nat i)))
         = false
         ∧ body tok (songs_page artist (first + Z.of_nat i)) = songs
         ∧ songs ≠ [])
    ∧ (fetch_all_songs_loop genius fuel artist tok first all_songs
       = Run (Returned (all_songs ++ concat pages))
             (page_reads tok artist first (length pages)
              ++ [Get tok (songs_page artist
                             (first + Z.of_nat (length pages)))])
       ∧ is_error_status
           (status tok (songs_page artist (first + Z.of_nat (length pages))))
         = false
       ∧ body tok (songs_page artist (first + Z.of_nat (length pages))) = []
       ∨ fetch_all_songs_loop genius fuel artist tok first all_songs
         = Run (Raised
                  (HTTPError
                     (status tok
                        (songs_page artist
                           (first + Z.of_nat (length pages))))))
               (page_reads tok artist first (length pages)
                ++ [Get tok (songs_page artist
                               (first + Z.of_nat (length pages)))])
         ∧ is_error_status
             (status tok
                (songs_page artist (first + Z.of_nat (length pages))))
           = true
       ∨ fetch_all_songs_loop genius fuel artist tok first all_songs
         = Run OutOfFuel (page_reads tok artist first fuel)
         ∧ length pages = fuel).
Proof.
  induction fuel as [|fuel IH]; intros first all_songs.
  { exists []. split_and!; [done|done|]. right. right. done. }
  destruct (is_error_status (status tok (songs_page artist first))) eqn:E.
  { exists []. cbn [length Z.of_nat]. rewrite Z.add_0_r.
    split_and!; [lia|done|]. right. left. split; [|done].
    cbn [fetch_all_songs_loop].
    by rewrite request_genius_error, bind_raised. }
  destruct (body tok (songs_page artist first)) as [|s songs] eqn:Hbody.
  { exists []. cbn [length Z.of_nat]. rewrite Z.add_0_r.
    split_and!; [lia|done|]. left. split_and!; [|done..].
    cbn [fetch_all_songs_loop].
    rewrite request_genius_ok, bind_returned by done.
    cbn [Body] in *. rewrite Hbody. simpl. by rewrite !app_nil_r. }
  destruct (IH (first + 1) (all_songs ++ s :: songs))
    as (pages & Hlen & Hpages & Hrun).
  assert (∀ fin : Py (list SongStub),
    fetch_all_songs_loop genius fuel artist tok (first + 1)
      (all_songs ++ s :: songs) = fin →
    fetch_all_songs_loop genius (S fuel) artist tok first all_songs
    = Run (outcome fin)
          (Get tok (songs_page artist first) :: Sleep 500 :: trace fin))
    as Hstep.
  { intros fin <-. cbn [fetch_all_songs_loop].
    rewrite request_genius_ok, bind_returned by done.
    cbn [Body] in *. rewrite Hbody.
    unfold sleep, emit. by rewrite bind_returned. }
  exists ((s :: songs) :: pages). cbn [length concat].
  replace (first + Z.of_nat (S (length pages)))
    with (first + 1 + Z.of_nat (length pages)) by lia.
  split_and!.
  - lia.
  - intros [|i] songs' Hi.
    + injection Hi as <-. by rewrite Z.add_0_r.
    + replace (first + Z.of_nat (S i)) with (first + 1 + Z.of_nat i) by lia.
      by apply Hpages.
  - rewrite !page_reads_S.
    destruct Hrun as [(Hrun & ? & ?)|[(Hrun & ?)|(Hrun & ?)]].
    + left. split_and!; [|done..].
      rewrite (Hstep _ Hrun). cbn [outcome trace].
      by rewrite <-app_assoc.
    + right. left. split; [|done]. by rewrite (Hstep _ Hrun).
    + right. right. split; [|lia]. by rewrite (Hstep _ Hrun).
Qed.

(** X9. Every run of [fetch_all_songs_for_artist], whatever the API
    answers: it requests pages 1, 2, ... in order with per_page 50, pausing
    after each non-empty page, and stops at the first page that is empty
    (returning the concatenation of the pages before it), or that fails
    (raising its transport error), or when the fuel is spent. *)
Theorem fetch_all_songs_anatomy (artist : Z) (tok : string) (fuel : nat) :
  ∃ pages : list (list SongStub),
    (length pages ≤ fuel)%nat
    ∧ (∀ (i : nat) songs, pages !! i = Some songs →
         is_error_status (status tok (songs_page artist (1 + Z.of_nat i)))
         = false
         ∧ body tok (songs_page artist (1 + Z.of_nat i)) = songs
         ∧ songs ≠ [])
    ∧ (fetch_all_songs_for_artist genius fuel artist tok
       = Run (Returned (concat pages))
             (page_reads tok artist 1 (length pages)
              ++ [Get tok (songs_page artist (1 + Z.of_nat (length pages)))])
       ∧ is_error_status
           (status tok (songs_page artist (1 + Z.of_nat (length pages))))
         = false
       ∧ body tok (songs_page artist (1 + Z.of_nat (length pages))) = []
       ∨ fetch_all_songs_for_artist genius fuel artist tok
         = Run (Raised
                  (HTTPError
                     (status tok
                        (songs_page artist (1 + Z.of_nat (length pages))))))
               (page_reads tok artist 1 (length pages)
                ++ [Get tok (songs_page artist
                               (1 + Z.of_nat (length pages)))])
         ∧ is_error_status
             (status tok (songs_page artist (1 + Z.of_nat (length pages))))
           = true
       ∨ fetch_all_songs_for_artist genius fuel artist tok
         = Run OutOfFuel (page_reads tok artist 1 fuel)
         ∧ length pages = fuel).
Proof.
  destruct (fetch_all_songs_loop_anatomy artist tok fuel 1 [])
    as (pages & Hlen & Hpages & Hrun).
  exists pages. by split_and!.
Qed.

(** X10. The loop has no page limit of its own: against an API that
    serves a non-empty page for every page number from 1 on, it is still
    running after any number of iterations, having requested that many
    pages. *)
Theorem fetch_all_songs_never_stops (artist : Z) (tok : string) :
  (∀ m, 1 ≤ m →
     is_error_status (status tok (songs_page artist m)) = false
     ∧ body tok (songs_page artist m) ≠ []) →
  ∀ fuel : nat,
    fetch_all_songs_for_artist genius fuel artist tok
    = Run OutOfFuel (page_reads tok artist 1 fuel).
Proof.
  intros Hendless fuel. unfold fetch_all_songs_for_artist.
  assert (∀ (first : Z) (all_songs : list SongStub), 1 ≤ first →
    fetch_all_songs_loop genius fuel artist tok first all_songs
    = Run OutOfFuel (page_reads tok artist first fuel)) as Hloop;
    [|by apply Hloop].
  induction fuel as [|fuel IH]; intros first all_songs Hfirst; [done|].
  destruct (Hendless first Hfirst) as [Hok Hne].
  cbn [fetch_all_songs_loop].
  rewrite request_genius_ok, bind_returned by done.
  destruct (body tok (songs_page artist first)) as [|s songs]; [done|].
  unfold sleep, emit. rewrite bind_returned, IH by lia.
  by rewrite page_reads_S.
Qed.

Lemma filter_songs_loop_returned_served (song_list : list SongStub)
    (producer_id : Z) (tok : string) :
  ∀ (filtered records : list Dict),
  outcome (filter_songs_loop genius song_list producer_id tok filtered)
  = Returned records →
  Forall (λ s, detail_served tok s) song_list.
Proof.
  induction song_list as [|s rest IH]; intros filtered records; [done|].
  destruct (is_error_status (status tok (Song (stub_id s)))) eqn:E.
  - cbn [filter_songs_loop].
    by rewrite request_genius_error, bind_raised.
  - rewrite filter_songs_loop_step, bind_returned by done. cbn [outcome].
    intros Hrest%IH. by apply Forall_cons.
Qed.

Lemma filter_songs_loop_finishes (song_list : list SongStub)
    (producer_id : Z) (tok : string) :
  ∀ filtered : list Dict,
  outcome (filter_songs_loop genius song_list producer_id tok filtered)
  ≠ OutOfFuel.
Proof.
  induction song_list as [|s rest IH]; intros filtered; [done|].
  destruct (is_error_status (status tok (Song (stub_id s)))) eqn:E.
  - cbn [filter_songs_loop].
    by rewrite request_genius_error, bind_raised.
  - rewrite filter_songs_loop_step, bind_returned by done. apply IH.
Qed.

(** X11. [filter_songs_by_producer] always finishes, and it returns a list
    exactly when every detail request of the pass is served; the list is
    then the records of the credited stubs in input order. A returned list
    is never the result of skipping a song whose request failed. *)
Theorem filter_songs_by_producer_returns_iff (song_list : list SongStub)
    (producer_id : Z) (tok : string) (records : list Dict) :
  (outcome (filter_songs_by_producer genius song_list producer_id tok)
   = Returned records
   ↔ Forall (λ s, detail_served tok s) song_list
     ∧ records
       = (λ s, record_of tok s)
           <$> filter (λ s, credited producer_id tok s) song_list)
  ∧ outcome (filter_songs_by_producer genius song_list producer_id tok)
    ≠ OutOfFuel.
Proof.
  unfold filter_songs_by_producer. split; [split|].
  - intros Hrun.
    pose proof (filter_songs_loop_returned_served _ _ _ _ _ Hrun) as Hserved.
    split; [done|].
    rewrite filter_songs_loop_served in Hrun by done.
    by injection Hrun as <-.
  - intros [Hserved ->]. by rewrite filter_songs_loop_served.
  - apply filter_songs_loop_finishes.
Qed.

(** X12. Filtering distributes over concatenation: when the pass over
    each of two lists returns, the pass over their concatenation returns
    the two results one after the other and performs the effects of the
    first pass followed by those of the second. *)
Theorem filter_songs_by_producer_app (l1 l2 : list SongStub)
    (producer_id : Z) (tok : string) (r1 r2 : list Dict) :
  outcome (filter_songs_by_producer genius l1 producer_id tok)
  = Returned r1 →
  outcome (filter_songs_by_producer genius l2 producer_id tok)
  = Returned r2 →
  filter_songs_by_producer genius (l1 ++ l2) producer_id tok
  = Run (Returned (r1 ++ r2))
        (trace (filter_songs_by_producer genius l1 producer_id tok)
         ++ trace (filter_songs_by_producer genius l2 producer_id tok)).
Proof.
  unfold filter_songs_by_producer. intros Hr1 Hr2.
  pose proof (filter_songs_loop_returned_served _ _ _ _ _ Hr1) as Hs1.
  pose proof (filter_songs_loop_returned_served _ _ _ _ _ Hr2) as Hs2.
  rewrite filter_songs_loop_served in Hr1, Hr2 by done.
  injection Hr1 as <-. injection Hr2 as <-.
  rewrite !filter_songs_loop_served by (done || by apply Forall_app).
  cbn [trace app]. rewrite filter_app, fmap_app.
  unfold detail_reads. by rewrite bind_app.
Qed.

(** ** Rows that do not share their keys *)

Lemma dict_to_list_extra_key (fieldnames : list string) (rowdict : Dict)
    (key : string) :
  key ∈ keys rowdict → key ∉ fieldnames →
  ∃ msg, Csv.dict_to_list fieldnames rowdict = Run (Raised (ValueError msg)) [].
Proof.
  intros Hin Hnot. unfold Csv.dict_to_list.
  destruct (filter (λ k, k ∉ fieldnames) (keys rowdict)) as [|k ks] eqn:E.
  - by destruct (filter_nil_not_elem_of _ _ key E Hnot).
  - by eexists.
Qed.

Lemma writerows_extra_key (path : string) (fieldnames : list string)
    (good rest : list Dict) (bad : Dict) (key : string) :
  Forall (λ rowdict, keys rowdict ⊆ fieldnames) good →
  key ∈ keys bad → key ∉ fieldnames →
  ∃ msg,
    Csv.writerows path fieldnames (good ++ bad :: rest)
    = Run (Raised (ValueError msg))
          ((λ rowdict, Write path (Csv.line (row_values fieldnames rowdict)))
             <$> good).
Proof.
  intros Hgood Hin Hnot.
  destruct (dict_to_list_extra_key fieldnames bad key Hin Hnot)
    as [msg Hbad].
  exists msg. induction Hgood as [|rowdict good Hrow _ IH].
  - cbn [app Csv.writerows]. by rewrite Hbad, bind_raised.
  - rewrite <-app_comm_cons. cbn [Csv.writerows].
    rewrite dict_to_list_no_extras by done.
    unfold Csv.writerow, emit. by rewrite !bind_returned, IH.
Qed.

(** X13. The exporter on rows that do not share their keys. The columns
    are the keys of the first row. A row that lacks one of them is written
    with an empty field in that column. A row with a key the first row does
    not have makes [save_to_csv] raise ValueError at that row: the file
    then holds the header and the rows before it, and nothing of the rows
    from it on. *)
Theorem save_to_csv_extra_key (first bad : Dict) (good rest : list Dict)
    (path key : string) :
  Forall (λ rowdict, keys rowdict ⊆ keys first) good →
  key ∈ keys bad → key ∉ keys first →
  ∃ msg,
    save_to_csv (first :: good ++ bad :: rest) path
    = Run (Raised (ValueError msg))
          (Open path
           :: (Write path
                 <$> Csv.line (keys first)
                     :: (Csv.line ∘ row_values (keys first)
                           <$> first :: good)))
    ∧ ∀ fs,
        fs_after (trace (save_to_csv (first :: good ++ bad :: rest) path)) fs
        = <[path := written
                      (Csv.line (keys first)
                       :: (Csv.line ∘ row_values (keys first)
                             <$> first :: good))]> fs.
Proof.
  intros Hgood Hin Hnot.
  destruct (writerows_extra_key path (keys first) (first :: good) rest bad
              key) as [msg Hrows]; [by apply Forall_cons|done|done|].
  exists msg.
  assert (save_to_csv (first :: good ++ bad :: rest) path
          = Run (Raised (ValueError msg))
              (Open path
               :: (Write path
                     <$> Csv.line (keys first)
                         :: (Csv.line ∘ row_values (keys first)
                               <$> first :: good)))) as Hrun.
  { unfold save_to_csv, Csv.writeheader, Csv.writerow, emit.
    rewrite !bind_returned. rewrite app_comm_cons, Hrows.
    cbn [outcome trace app].
    by rewrite (fmap_cons (Write path)), <-list_fmap_compose. }
  split; [done|]. intros fs. rewrite Hrun.
  cbn [trace fs_after foldl fs_step].
  apply (fs_after_writes path
           (Csv.line (keys first)
            :: (Csv.line ∘ row_values (keys first) <$> first :: good))
           fs EmptyString).
Qed.

(** ** What a run never does *)

Lemma trace_bind_allowed {A B} (tok : option string) (path : string)
    (m : Py A) (k : A → Py B) :
  Forall (event_allowed tok path) (trace m) →
  (∀ a, Forall (event_allowed tok path) (trace (k a))) →
  Forall (event_allowed tok path) (trace (m ≫= k)).
Proof.
  intros Hm Hk. rewrite trace_bind. apply Forall_app. split; [done|].
  by destruct (outcome m).
Qed.

Lemma request_genius_allowed (r : Request) (tok path : string) :
  Forall (event_allowed (Some tok) path) (trace (request_genius genius r tok)).
Proof.
  destruct (request_genius_trace r tok) as [-> _].
  by apply Forall_singleton.
Qed.

Lemma fetch_all_songs_loop_allowed (fuel : nat) (artist : Z)
    (tok path : string) :
  ∀ (page : Z) (all_songs : list SongStub),
  Forall (event_allowed (Some tok) path)
    (trace (fetch_all_songs_loop genius fuel artist tok page all_songs)).
Proof.
  induction fuel as [|fuel IH]; intros page all_songs; [done|].
  cbn [fetch_all_songs_loop].
  apply trace_bind_allowed; [apply request_genius_allowed|].
  intros [|s songs]; [done|].
  apply trace_bind_allowed; [by apply Forall_singleton|]. intros _. apply IH.
Qed.

Lemma filter_songs_loop_allowed (song_list : list SongStub)
    (producer_id : Z) (tok path : string) :
  ∀ filtered : list Dict,
  Forall (event_allowed (Some tok) path)
    (trace (filter_songs_loop genius song_list producer_id tok filtered)).
Proof.
  induction song_list as [|s rest IH]; intros filtered; [done|].
  cbn [filter_songs_loop].
  apply trace_bind_allowed; [apply request_genius_allowed|].
  intros detail.
  apply trace_bind_allowed; [by apply Forall_singleton|]. intros _. apply IH.
Qed.

Lemma writerows_allowed (tok : option string) (path : string)
    (fieldnames : list string) (rowdicts : list Dict) :
  Forall (event_allowed tok path)
    (trace (Csv.writerows path fieldnames rowdicts)).
Proof.
  induction rowdicts as [|rowdict rest IH]; [done|].
  cbn [Csv.writerows]. apply trace_bind_allowed.
  - unfold Csv.dict_to_list. by destruct (filter _ _).
  - intros row.
    apply trace_bind_allowed; [by apply Forall_singleton|]. by intros _.
Qed.

Lemma save_to_csv_allowed (tok : option string) (path : string)
    (records : list Dict) :
  Forall (event_allowed tok path) (trace (save_to_csv records path)).
Proof.
  destruct records as [|first rest]; [by apply Forall_singleton|].
  unfold save_to_csv.
  apply trace_bind_allowed; [by apply Forall_singleton|]. intros _.
  apply trace_bind_allowed; [by apply Forall_singleton|]. intros _.
  apply writerows_allowed.
Qed.

(** X7. Whatever the API answers and however the run ends, a run from
    the command line sends only requests that carry the resolved token
    (the --token value if the option is given, else the environment
    variable), and opens or writes no file but the one at the resolved
    output path (the --output value, else songs_by_producer.csv). *)
Theorem main_confined (fuel : nat) (env_token : option string)
    (cl : CommandLine) :
  Forall
    (event_allowed
       (match flag_token cl with Some given => Some given | None => env_token end)
       (default "songs_by_producer.csv" (flag_output cl)))
    (trace (main_from_command_line lower genius fuel env_token cl)).
Proof.
  unfold main_from_command_line.
  change (Forall
            (event_allowed (token (parse_args env_token cl))
               (output (parse_args env_token cl)))
            (trace (main lower genius fuel (parse_args env_token cl)))).
  generalize (parse_args env_token cl) as args. intros args.
  unfold main. destruct (token args) as [[|c tok']|]; [done| |done].
  set (tok := String c tok').
  apply trace_bind_allowed; [by apply Forall_singleton|]. intros _.
  apply trace_bind_allowed.
  { unfold find_producer_id.
    apply trace_bind_allowed; [apply request_genius_allowed|].
    intros hits. by rewrite find_producer_id_loop_trace. }
  intros [pid pname].
  apply trace_bind_allowed; [by apply Forall_singleton|]. intros _.
  apply trace_bind_allowed; [apply fetch_all_songs_loop_allowed|].
  intros all_songs.
  apply trace_bind_allowed; [by apply Forall_singleton|]. intros _.
  apply trace_bind_allowed; [by apply Forall_singleton|]. intros _.
  apply trace_bind_allowed; [apply filter_songs_loop_allowed|].
  intros produced.
  apply trace_bind_allowed; [by apply Forall_singleton|]. intros _.
  apply trace_bind_allowed; [by apply Forall_singleton|]. intros _.
  apply trace_bind_allowed; [apply save_to_csv_allowed|]. intros _.
  by apply Forall_singleton.
Qed.

(** X1. Without a usable token the run exits with status 2 before any
    request, print or file effect. That is the case when --token is given
    as the empty string, even if the environment variable holds a token,
    and when --token is not given and the environment variable is unset or
    empty. *)
Theorem main_requires_usable_token (fuel : nat) (env_token : option string)
    (cl : CommandLine) :
  flag_token cl = Some EmptyString
  ∨ flag_token cl = None
    ∧ (env_token = None ∨ env_token = Some EmptyString) →
  main_from_command_line lower genius fuel env_token cl
  = Run (Raised (SystemExit 2)) [].
Proof.
  intros Hcase. unfold main_from_command_line.
  apply main_requires_token. unfold parse_args. cbn [token].
  destruct Hcase as [->|[-> [->| ->]]]; auto.
Qed.

(** ** The cost of a run *)

Lemma request_count_app (t1 t2 : list Event) :
  request_count (t1 ++ t2) = (request_count t1 + request_count t2)%nat.
Proof. unfold request_count. by rewrite filter_app, length_app. Qed.

Lemma slept_app (t1 t2 : list Event) : slept (t1 ++ t2) = slept t1 + slept t2.
Proof.
  induction t1 as [|e t1 IH]; [done|].
  simpl. rewrite IH. destruct e; lia.
Qed.

Lemma page_reads_cost (tok : string) (artist : Z) (count : nat) :
  ∀ first : Z,
  request_count (page_reads tok artist first count) = count
  ∧ slept (page_reads tok artist first count) = 500 * Z.of_nat count.
Proof.
  induction count as [|count IH]; intros first; [done|].
  rewrite page_reads_S. destruct (IH (first + 1)) as [Hcount Hslept].
  split.
  - unfold request_count in *. rewrite filter_cons_True by done.
    rewrite filter_cons_False by (by intros []). simpl. by rewrite Hcount.
  - simpl. rewrite Hslept. lia.
Qed.

Lemma detail_reads_cost (tok : string) (song_list : list SongStub) :
  request_count (detail_reads tok song_list) = length song_list
  ∧ slept (detail_reads tok song_list) = 200 * Z.of_nat (length song_list).
Proof.
  induction song_list as [|s rest [Hcount Hslept]]; [done|].
  change (detail_reads tok (s :: rest))
    with (Get tok (Song (stub_id s)) :: Sleep 200 :: detail_reads tok rest).
  split.
  - unfold request_count in *. rewrite filter_cons_True by done.
    rewrite filter_cons_False by (by intros []). simpl. by rewrite Hcount.
  - simpl. rewrite Hslept. lia.
Qed.

Lemma writes_cost (path : string) (pieces : list string) :
  request_count (Write path <$> pieces) = O
  ∧ slept (Write path <$> pieces) = 0.
Proof. induction pieces as [|x pieces [Hcount Hslept]]; done. Qed.

(** Exporting records built by the filter returns, without a request or a
    pause. *)
Lemma save_to_csv_projected_cost (songs : list (Z * SongDetail))
    (path : string) :
  outcome (save_to_csv (projected <$> songs) path) = Returned tt
  ∧ request_count (trace (save_to_csv (projected <$> songs) path)) = O
  ∧ slept (trace (save_to_csv (projected <$> songs) path)) = 0.
Proof.
  destruct songs as [|song rest]; [done|].
  rewrite save_to_csv_projected. cbn [outcome trace].
  destruct (writes_cost path
              (Csv.line output_fields
               :: (Csv.line ∘ output_values <$> song :: rest)))
    as [Hcount Hslept].
  split_and!; [done| |done].
  unfold request_count in *. by rewrite filter_cons_False by (by intros []).
Qed.

(** X14. A run in which the producer resolves, the catalogue comes as
    [pages] followed by an empty page and every detail request is served:
    it returns after printing its progress lines with the true counts,
    resolving, reading the pages, fetching every song's detail in catalogue
    order and exporting, in that order. It sends one search request, one
    request per page including the empty one and one per song, and pauses
    half a second per non-empty page and a fifth of a second per song. *)
Theorem main_run_cost (fuel : nat) (args : Args) (tok pname : string)
    (pid : Z) (pages : list (list SongStub)) :
  token args = Some tok → tok ≠ EmptyString →
  outcome (find_producer_id lower genius (producer args) tok)
  = Returned (pid, pname) →
  (∀ (i : nat) songs, pages !! i = Some songs →
     is_error_status (status tok (songs_page pid (1 + Z.of_nat i))) = false
     ∧ body tok (songs_page pid (1 + Z.of_nat i)) = songs
     ∧ songs ≠ []) →
  is_error_status (status tok (songs_page pid (1 + Z.of_nat (length pages))))
  = false →
  body tok (songs_page pid (1 + Z.of_nat (length pages))) = [] →
  (length pages < fuel)%nat →
  Forall (λ s, detail_served tok s) (concat pages) →
  let all_songs := concat pages in
  let produced :=
    (λ s, record_of tok s) <$> filter (λ s, credited pid tok s) all_songs in
  main lower genius fuel args
  = Run (Returned tt)
        ([ Print ("Looking up producer '" +:+ producer args +:+ "'…");
           Get tok (Search (producer args));
           Print ("Found producer ID " +:+ pretty pid +:+ " (" +:+ pname
                  +:+ "). Fetching song list…") ]
         ++ page_reads tok pid 1 (length pages)
         ++ [ Get tok (songs_page pid (1 + Z.of_nat (length pages)));
              Print ("Got " +:+ pretty (length all_songs)
                     +:+ " total songs associated with artist ID "
                     +:+ pretty pid +:+ ".");
              Print "Filtering songs where this artist is credited as producer…" ]
         ++ detail_reads tok all_songs
         ++ [ Print (pretty (length produced) +:+ " songs found where '"
                     +:+ pname +:+ "' is a producer.");
              Print ("Writing to '" +:+ output args +:+ "'…") ]
         ++ trace (save_to_csv produced (output args))
         ++ [Print "Done."])
  ∧ request_count (trace (main lower genius fuel args))
    = (length pages + length all_songs + 2)%nat
  ∧ slept (trace (main lower genius fuel args))
    = 500 * Z.of_nat (length pages) + 200 * Z.of_nat (length all_songs).
Proof.
  intros Htoken Hne Hfind Hpages Hlast Hempty Hfuel Hserved all_songs produced.
  subst produced all_songs.
  destruct (save_to_csv_projected_cost
              ((λ x, (stub_id x, detail_of tok x) : Z * SongDetail)
                 <$> filter (λ s, credited pid tok s) (concat pages))
              (output args)) as (Hsaved & Hsave_count & Hsave_slept).
  rewrite <-list_fmap_compose in Hsaved, Hsave_count, Hsave_slept.
  change (projected ∘ _) with (λ s : SongStub, record_of tok s)
    in Hsaved, Hsave_count, Hsave_slept.
  match goal with |- ?run ∧ _ => assert run as Hmain end.
  { unfold main. rewrite Htoken.
    destruct tok as [|c tok'] eqn:Etok; [done|]. rewrite <-Etok in *.
    unfold print, emit. rewrite bind_returned.
    rewrite (bind_when_returned _ _ _ Hfind), find_producer_id_trace.
    cbn [outcome trace]. rewrite bind_returned.
    unfold fetch_all_songs_for_artist.
    rewrite (fetch_all_songs_loop_pages pid tok pages fuel 1 [])
      by done.
    rewrite !bind_returned. cbn [outcome trace app].
    unfold filter_songs_by_producer.
    rewrite (filter_songs_loop_served (concat pages) pid tok []) by done.
    rewrite !bind_returned. cbn [outcome trace app].
    rewrite outcome_bind, trace_bind.
    rewrite Hsaved. cbn [outcome trace].
    f_equal. rewrite <-!app_assoc. reflexivity. }
  split; [done|split].
  - rewrite Hmain. cbn [trace].
    destruct (page_reads_cost tok pid (length pages) 1) as [Hp _].
    destruct (detail_reads_cost tok (concat pages)) as [Hd _].
    rewrite !request_count_app, Hp, Hd, Hsave_count.
    unfold request_count. simpl. lia.
  - rewrite Hmain. cbn [trace].
    destruct (page_reads_cost tok pid (length pages) 1) as [_ Hp].
    destruct (detail_reads_cost tok (concat pages)) as [_ Hd].
    rewrite !slept_app, Hp, Hd, Hsave_slept. simpl. lia.
Qed.

End Properties.

(** * The statements on the test double *)

(** C3 on the test double: "metro" skips Future and finds Metro Boomin. *)
Lemma find_producer_id_first_match_witness :
  find_producer_id Scenario.lower Scenario.api "metro" "secret"
  = Run (Returned (42, "Metro Boomin")) [Get "secret" (Search "metro")].
Proof.
  apply (find_producer_id_first_match Scenario.lower Scenario.api
           "metro" "secret"
           [ {| hit_primary_artist := Scenario.future |} ] []
           {| hit_primary_artist := Scenario.metro |});
    [reflexivity|reflexivity|forall_by_computation|reflexivity].
Defined.

(** C10 on the test double: the empty name finds the first hit, Future. *)
Lemma find_producer_id_empty_name_witness :
  Scenario.lower EmptyString = EmptyString
  ∧ find_producer_id Scenario.lower Scenario.api EmptyString "secret"
    = Run (Returned (7, "Future")) [Get "secret" (Search EmptyString)].
Proof.
  split; [reflexivity|].
  apply (find_producer_id_empty_name Scenario.lower Scenario.api "secret"
           {| hit_primary_artist := Scenario.future |}
           [ {| hit_primary_artist := Scenario.metro |} ]);
    reflexivity.
Defined.

(** C6 on the test double: no hit matches "zaytoven". *)
Lemma find_producer_id_not_found_witness :
  find_producer_id Scenario.lower Scenario.api "zaytoven" "secret"
  = Run (Raised (ValueError "No producer artist found for 'zaytoven'"))
        [Get "secret" (Search "zaytoven")]
  ∧ outcome (main Scenario.lower Scenario.api 5
               {| producer := "zaytoven"; token := Some "secret";
                  output := "out.csv" |})
    = Raised (ValueError "No producer artist found for 'zaytoven'")
  ∧ fs_after (trace (main Scenario.lower Scenario.api 5
                       {| producer := "zaytoven"; token := Some "secret";
                          output := "out.csv" |}))
      {[ "out.csv" := "kept" ]}
    = {[ "out.csv" := "kept" ]}.
Proof.
  destruct (find_producer_id_not_found Scenario.lower Scenario.api
              "zaytoven" "secret") as [Hfind Hmain];
    [reflexivity|forall_by_computation|].
  destruct (Hmain 5%nat {| producer := "zaytoven"; token := Some "secret";
                           output := "out.csv" |})
    as [Hrun Hfs]; [reflexivity|reflexivity|discriminate|].
  split; [exact Hfind|]. split; [by rewrite Hrun|apply Hfs].
Defined.

(** C2 on the test double: two pages, then the empty third page. *)
Lemma fetch_all_songs_concatenates_pages_witness :
  fetch_all_songs_for_artist Scenario.api 3 42 "secret"
  = Run (Returned [stub 1; stub 2; stub 3])
        [Get "secret" (ArtistSongs 42 50 1); Sleep 500;
         Get "secret" (ArtistSongs 42 50 2); Sleep 500;
         Get "secret" (ArtistSongs 42 50 3)].
Proof.
  apply (fetch_all_songs_concatenates_pages Scenario.api 42 "secret"
           [[stub 1; stub 2]; [stub 3]] 3).
  - intros [|[|i]] songs Hpage; simpl in Hpage; [| |discriminate];
      injection Hpage as <-; by split_and!.
  - reflexivity.
  - reflexivity.
  - simpl. lia.
Defined.

(** C8 on the test double: every page from 3 on is empty, and with enough
    fuel the loop returns the three stubs. *)
Lemma fetch_all_songs_terminates_witness :
  ∃ fuel0 : nat, ∀ fuel, (fuel0 ≤ fuel)%nat →
    outcome (fetch_all_songs_for_artist Scenario.api fuel 42 "secret")
    = Returned [stub 1; stub 2; stub 3].
Proof.
  destruct (fetch_all_songs_terminates Scenario.api 42 "secret" 3)
    as (fuel0 & _ & Hreturns).
  - intros m Hm. split; [reflexivity|].
    simpl. unfold Scenario.page.
    destruct (Z.eqb_spec m 1); [lia|]. destruct (Z.eqb_spec m 2); [lia|].
    reflexivity.
  - destruct Hreturns as [songs Hsongs].
    + intros m Hm. reflexivity.
    + exists fuel0. intros fuel Hfuel. rewrite (Hsongs fuel Hfuel).
      rewrite <-(Hsongs (fuel0 + 3)%nat) by lia.
      destruct fuel0 as [|[|[|n]]]; reflexivity.
Defined.

(** C1 on the test double: songs 1 and 3 credit artist 42, song 2 does not. *)
Lemma filter_songs_by_producer_stable_filter_witness :
  filter_songs_by_producer Scenario.api [stub 1; stub 2; stub 3] 42 "secret"
  = Run (Returned [ projected (1, Scenario.song1);
                    projected (3, Scenario.song3) ])
        [Get "secret" (Song 1); Sleep 200; Get "secret" (Song 2); Sleep 200;
         Get "secret" (Song 3); Sleep 200]
  ∧ NoDup [ projected (1, Scenario.song1); projected (3, Scenario.song3) ].
Proof.
  destruct (filter_songs_by_producer_stable_filter Scenario.api
              [stub 1; stub 2; stub 3] 42 "secret") as [Hrun Hnodup];
    [forall_by_computation|].
  split; [exact Hrun|]. apply Hnodup.
  apply (bool_decide_unpack _). vm_compute. exact I.
Defined.

(** C9 on the test double: the detail of song 2 has no producer_artists. *)
Lemma filter_excludes_song_without_credits_witness :
  outcome (filter_songs_by_producer Scenario.api
             ([stub 1] ++ stub 2 :: [stub 3]) 42 "secret")
  = outcome (filter_songs_by_producer Scenario.api
               ([stub 1] ++ [stub 3]) 42 "secret")
  ∧ filter_songs_by_producer Scenario.api [stub 2] 42 "secret"
    = Run (Returned []) [Get "secret" (Song 2); Sleep 200].
Proof.
  apply (filter_excludes_song_without_credits Scenario.api
           [stub 1] [stub 3] (stub 2) 42 "secret");
    reflexivity.
Defined.

(** C5 on the test double whose detail of song 2 answers 503. *)
Lemma detail_failure_aborts_pass_witness :
  filter_songs_by_producer Scenario.flaky_api [stub 1; stub 2; stub 3]
    42 "secret"
  = Run (Raised (HTTPError 503))
        [Get "secret" (Song 1); Sleep 200; Get "secret" (Song 2)]
  ∧ (∃ code, outcome (main Scenario.lower Scenario.flaky_api 5 Scenario.args)
             = Raised (HTTPError code)
             ∧ is_error_status code = true)
  ∧ fs_after (trace (main Scenario.lower Scenario.flaky_api 5 Scenario.args))
      {[ "out.csv" := "kept" ]}
    = {[ "out.csv" := "kept" ]}.
Proof.
  destruct (detail_failure_aborts_pass Scenario.lower Scenario.flaky_api
              [stub 1; stub 2; stub 3] (stub 2) 42 "secret")
    as [_ Hmain]; [set_solver|reflexivity|].
  destruct (Hmain 5%nat Scenario.args "Metro Boomin")
    as [Hcode Hfs]; [reflexivity|discriminate|reflexivity|reflexivity|].
  split; [reflexivity|]. split; [exact Hcode|apply Hfs].
Defined.

(** C4 on the records of songs 1 and 3: three records, three lines. *)
Lemma save_to_csv_header_and_rows_witness :
  save_to_csv [ projected (1, Scenario.song1); projected (3, Scenario.song3) ]
    "out.csv"
  = Run (Returned tt)
        [ Open "out.csv";
          Write "out.csv" (Csv.line output_fields);
          Write "out.csv" (Csv.line (output_values (1, Scenario.song1)));
          Write "out.csv" (Csv.line (output_values (3, Scenario.song3))) ]
  ∧ Str.line_count
      (written [ Csv.line output_fields;
                 Csv.line (output_values (1, Scenario.song1));
                 Csv.line (output_values (3, Scenario.song3)) ])
    = 3%nat.
Proof.
  destruct (save_to_csv_header_and_rows
              [(1, Scenario.song1); (3, Scenario.song3)] "out.csv")
    as (Hrun & _ & _ & _ & _ & Hlines); [discriminate|].
  split; [exact Hrun|]. apply Hlines.
  repeat first [apply Forall_nil_2 | apply Forall_cons_2 | reflexivity].
Defined.

(** C4, as the claim words it, fails on a title that contains a line
    break: the record of the one song is written over two lines, so the
    file of one record has three lines and not two. *)
Lemma save_to_csv_line_count_counterexample :
  ∃ content : string,
    fs_after
      (trace (save_to_csv [projected (1, Scenario.two_line_song)] "out.csv"))
      ∅ !! "out.csv" = Some content
    ∧ Str.line_count content = 3%nat
    ∧ Str.line_count content
      ≠ S (length [projected (1, Scenario.two_line_song)]).
Proof.
  eexists. split; [vm_compute; reflexivity|]. split; [reflexivity|].
  vm_compute. discriminate.
Qed.

(** X2 on the test double, which answers 401 to an unknown token. *)
Lemma find_producer_id_transport_error_witness :
  find_producer_id Scenario.lower Scenario.api "metro" "expired"
  = Run (Raised (HTTPError 401)) [Get "expired" (Search "metro")].
Proof.
  apply (find_producer_id_transport_error Scenario.lower Scenario.api
           "metro" "expired").
  reflexivity.
Defined.

(** X3 on the test double whose second page answers 500. *)
Lemma fetch_all_songs_page_failure_witness :
  fetch_all_songs_for_artist Scenario.late_failure_api 3 42 "secret"
  = Run (Raised (HTTPError 500))
        [Get "secret" (ArtistSongs 42 50 1); Sleep 500;
         Get "secret" (ArtistSongs 42 50 2)].
Proof.
  apply (fetch_all_songs_page_failure Scenario.late_failure_api 42 "secret"
           [[stub 1; stub 2]] 3).
  - intros [|i] songs Hpage; simpl in Hpage; [|discriminate].
    injection Hpage as <-. by split_and!.
  - reflexivity.
  - simpl. lia.
Defined.

(** X4 on the records of the scenario. *)
Lemma filter_songs_by_producer_uniform_keys_witness :
  Forall (λ r, keys r = output_fields)
    [ projected (1, Scenario.song1); projected (3, Scenario.song3) ].
Proof.
  apply (filter_songs_by_producer_uniform_keys Scenario.api
           [stub 1; stub 2; stub 3] 42 "secret").
  reflexivity.
Defined.

(** X5 on the scenario: a stale output file is replaced. *)
Lemma main_exports_credited_songs_witness :
  outcome (main Scenario.lower Scenario.api 5 Scenario.args) = Returned tt
  ∧ fs_after (trace (main Scenario.lower Scenario.api 5 Scenario.args))
      {[ "out.csv" := "stale" ]}
    = {[ "out.csv" :=
           written
             [ Csv.line output_fields;
               Csv.line (output_values (1, Scenario.song1));
               Csv.line (output_values (3, Scenario.song3)) ] ]}.
Proof.
  destruct (main_exports_credited_songs Scenario.lower Scenario.api 5
              Scenario.args "secret" "Metro Boomin" 42
              [stub 1; stub 2; stub 3])
    as [Hout Hfs];
    [reflexivity|discriminate|reflexivity|reflexivity
    |forall_by_computation|].
  split; [exact Hout|]. rewrite Hfs. apply insert_singleton_eq.
Defined.


(** The scenario of the specification, run from the parsed command line
    to the file: the producer resolves to artist 42, the three stubs come from
    two pages and a final empty one, songs 1 and 3 credit the producer, and
    the export writes the header and those two records in that order. *)
Theorem main_scenario :
  main Scenario.lower Scenario.api 5 Scenario.args
  = Run (Returned tt)
      [ Print "Looking up producer 'metro'…";
        Get "secret" (Search "metro");
        Print "Found producer ID 42 (Metro Boomin). Fetching song list…";
        Get "secret" (ArtistSongs 42 50 1); Sleep 500;
        Get "secret" (ArtistSongs 42 50 2); Sleep 500;
        Get "secret" (ArtistSongs 42 50 3);
        Print "Got 3 total songs associated with artist ID 42.";
        Print "Filtering songs where this artist is credited as producer…";
        Get "secret" (Song 1); Sleep 200;
        Get "secret" (Song 2); Sleep 200;
        Get "secret" (Song 3); Sleep 200;
        Print "2 songs found where 'Metro Boomin' is a producer.";
        Print "Writing to 'out.csv'…";
        Open "out.csv";
        Write "out.csv"
          ("song_id,title,primary_artist,producers,release_date,url"
           +:+ Csv.CRLF);
        Write "out.csv"
          ("1,Mask Off,Future,Metro Boomin,2017-02-17,"
           +:+ "https://genius.com/Mask Off" +:+ Csv.CRLF);
        Write "out.csv"
          ("3,Where Ya At,Future,Future; Metro Boomin,,"
           +:+ "https://genius.com/Where Ya At" +:+ Csv.CRLF);
        Print "Done." ].
Proof. vm_compute. reflexivity. Qed.

(** X1 on a command line whose --token is empty while the environment
    holds a token. *)
Lemma main_requires_usable_token_witness :
  main_from_command_line Scenario.lower Scenario.api 5 (Some "secret")
    {| arg_producer := "metro"; flag_token := Some EmptyString;
       flag_output := None |}
  = Run (Raised (SystemExit 2)) [].
Proof.
  apply (main_requires_usable_token Scenario.lower Scenario.api 5
           (Some "secret")).
  by left.
Defined.

(** X8 on the test double: what "metro" resolves to is the second hit. *)
Lemma find_producer_id_sound_witness :
  outcome (find_producer_id Scenario.lower Scenario.api "metro" "secret")
  = Returned (42, "Metro Boomin")
  ∧ ∃ before after,
      Scenario.lower "Metro Boomin"
      = before +:+ Scenario.lower "metro" +:+ after.
Proof.
  split; [reflexivity|].
  apply (find_producer_id_sound Scenario.lower Scenario.api
           "metro" "secret" 42 "Metro Boomin").
  reflexivity.
Defined.

(** X10 on the test double that ignores the page number, after seven
    iterations. *)
Lemma fetch_all_songs_never_stops_witness :
  fetch_all_songs_for_artist Scenario.endless_api 7 42 "secret"
  = Run OutOfFuel (page_reads "secret" 42 1 7).
Proof.
  apply (fetch_all_songs_never_stops Scenario.endless_api 42 "secret").
  intros m Hm. split; [reflexivity|discriminate].
Defined.

(** X12 on the test double: song 1 alone, then songs 2 and 3. *)
Lemma filter_songs_by_producer_app_witness :
  filter_songs_by_producer Scenario.api ([stub 1] ++ [stub 2; stub 3])
    42 "secret"
  = Run (Returned ([projected (1, Scenario.song1)]
                   ++ [projected (3, Scenario.song3)]))
        ([Get "secret" (Song 1); Sleep 200]
         ++ [Get "secret" (Song 2); Sleep 200;
             Get "secret" (Song 3); Sleep 200]).
Proof.
  apply (filter_songs_by_producer_app Scenario.api [stub 1]
           [stub 2; stub 3] 42 "secret"); reflexivity.
Defined.

(** X13 on three rows: the second lacks the title, the third has a year. *)
Lemma save_to_csv_extra_key_witness :
  ∃ msg,
    save_to_csv [Scenario.first_row; Scenario.short_row; Scenario.long_row]
      "out.csv"
    = Run (Raised (ValueError msg))
          [ Open "out.csv";
            Write "out.csv" (Csv.line ["song_id"; "title"]);
            Write "out.csv" (Csv.line ["1"; "Mask Off"]);
            Write "out.csv" (Csv.line ["2"; EmptyString]) ].
Proof.
  destruct (save_to_csv_extra_key Scenario.first_row Scenario.long_row
              [Scenario.short_row] [] "out.csv" "year")
    as (msg & Hrun & _).
  - apply (bool_decide_unpack _). vm_compute. exact I.
  - apply (bool_decide_unpack _). vm_compute. exact I.
  - apply (bool_decide_unpack _). vm_compute. exact I.
  - exists msg. exact Hrun.
Defined.

(** X14 on the scenario: seven requests and 1.6 seconds of pauses. *)
Lemma main_run_cost_witness :
  request_count (trace (main Scenario.lower Scenario.api 5 Scenario.args))
  = 7%nat
  ∧ slept (trace (main Scenario.lower Scenario.api 5 Scenario.args)) = 1600.
Proof.
  destruct (main_run_cost Scenario.lower Scenario.api 5 Scenario.args
              "secret" "Metro Boomin" 42 [[stub 1; stub 2]; [stub 3]])
    as (_ & Hcount & Hslept).
  - reflexivity.
  - discriminate.
  - reflexivity.
  - intros [|[|i]] songs Hpage; simpl in Hpage; [| |discriminate];
      injection Hpage as <-; by split_and!.
  - reflexivity.
  - reflexivity.
  - simpl. lia.
  - forall_by_computation.
  - split; [exact Hcount|exact Hslept].
Defined.

(** X15 on a value with a comma against the two values it would split
    into. *)
Lemma csv_line_distinct_witness :
  Csv.line ["Mask Off, Pt. 2"] ≠ Csv.line ["Mask Off"; " Pt. 2"].
Proof. apply (csv_line_distinct ["Mask Off, Pt. 2"]). discriminate. Defined.
